(** * PDF outline extractor: a shallow embedding of [pdf_extractor.py]

    The development follows the source file top-down:

    - [PyStr]: the [str] methods the extractor calls ([strip], [lower],
      [isupper], [isdigit], [in], [count], [len]);
    - [PySort]: [list.sort(key=..., reverse=...)], a stable sort;
    - the layout tree handed over by the PDF library (documents, pages,
      blocks, lines, spans);
    - [extract_title], [extract_font_info], [_is_likely_body_text],
      [determine_heading_levels] and [extract_outline].

    Modelling conventions.

    - A Python [str] is a [string]; every [ascii] stands for the code point
      of the same number (U+0000 to U+00FF), so that the copyright sign is
      the single character 169.  The character tables below are the Unicode
      ones restricted to that range.
    - A Python [float] font size is a canonical rational [Qc]: sizes are
      only compared, maximised and negated, which is exact.  The
      coordinates of a span and the width of a page enter the arithmetic of
      the centering test and are binary64 floats, with the operations of
      the kernel ([PrimFloat]), which round as Python's do.
    - Reading a page can raise, and the outcome of a read can differ from
      one read to the next: a document records the outcome of each read
      the program makes.
    - An exception carries its message; fallible code returns [exn + A].
    - [determine_heading_levels] sorts the caller's list in place: the
      model returns the list the caller is left with next to the result. *)

From Stdlib Require Import List String Ascii Bool Arith ZArith NArith Lia Lqa.
From Stdlib Require Import QArith Qcanon Permutation Sorted DecimalString.
From Stdlib Require Import PrimFloat.
Import ListNotations.

Local Open Scope string_scope.
Local Open Scope nat_scope.

(** ** Python [str] methods *)

Module PyStr.

Definition code (c : ascii) : N := N_of_ascii c.

Definition between (lo hi : N) (c : ascii) : bool :=
  (N.leb lo (code c) && N.leb (code c) hi)%bool.

(** [str.isspace] on one character: TAB..CR, FS..US, SPACE, NEL, NBSP. *)
Definition is_space (c : ascii) : bool :=
  between 9 13 c || between 28 32 c || N.eqb (code c) 133
  || N.eqb (code c) 160.

(** Characters with the Uppercase property: A-Z and the Latin-1 capitals
    (192..222 without the multiplication sign 215). *)
Definition is_upper_char (c : ascii) : bool :=
  between 65 90 c || between 192 214 c || between 216 222 c.

(** Characters with the Lowercase property: a-z, the ordinal indicators
    170 and 186, the micro sign 181 and the Latin-1 small letters
    (223..255 without the division sign 247). *)
Definition is_lower_char (c : ascii) : bool :=
  between 97 122 c || N.eqb (code c) 170 || N.eqb (code c) 181
  || N.eqb (code c) 186 || between 223 246 c || between 248 255 c.

(** Characters [str.isdigit] accepts: 0-9 and the superscripts 1, 2, 3. *)
Definition is_digit_char (c : ascii) : bool :=
  between 48 57 c || N.eqb (code c) 178 || N.eqb (code c) 179
  || N.eqb (code c) 185.

Definition lower_char (c : ascii) : ascii :=
  if is_upper_char c then ascii_of_N (code c + 32) else c.

(** [len(s)] *)
Definition len (s : string) : nat := String.length s.

(** [s.lower()] *)
Fixpoint lower (s : string) : string :=
  match s with
  | EmptyString => EmptyString
  | String c r => String (lower_char c) (lower r)
  end.

Fixpoint lstrip (s : string) : string :=
  match s with
  | EmptyString => EmptyString
  | String c r => if is_space c then lstrip r else s
  end.

Fixpoint rstrip (s : string) : string :=
  match s with
  | EmptyString => EmptyString
  | String c r =>
      match rstrip r with
      | EmptyString => if is_space c then EmptyString else String c EmptyString
      | r' => String c r'
      end
  end.

(** [s.strip()]: leading and trailing whitespace removed. *)
Definition strip (s : string) : string := rstrip (lstrip s).

Fixpoint all_chars (p : ascii -> bool) (s : string) : bool :=
  match s with
  | EmptyString => true
  | String c r => p c && all_chars p r
  end.

Fixpoint any_char (p : ascii -> bool) (s : string) : bool :=
  match s with
  | EmptyString => false
  | String c r => p c || any_char p r
  end.

(** [s.isupper()]: no lowercase character and at least one uppercase
    character. *)
Definition isupper (s : string) : bool :=
  all_chars (fun c => negb (is_lower_char c)) s && any_char is_upper_char s.

(** [s.isdigit()]: non-empty and only digits. *)
Definition isdigit (s : string) : bool :=
  match s with
  | EmptyString => false
  | _ => all_chars is_digit_char s
  end.

(** [pat in s] *)
Fixpoint contains (pat s : string) : bool :=
  String.prefix pat s
  || match s with
     | EmptyString => false
     | String _ r => contains pat r
     end.

(** [s.count(c)] for a pattern [c] of one character. *)
Fixpoint count (c : ascii) (s : string) : nat :=
  match s with
  | EmptyString => 0
  | String d r => (if Ascii.eqb d c then 1 else 0) + count c r
  end.

(** [sep.join(parts)] *)
Fixpoint join (sep : string) (parts : list string) : string :=
  match parts with
  | [] => EmptyString
  | [p] => p
  | p :: rest => p ++ sep ++ join sep rest
  end.

Definition chars (s : string) : list ascii := list_ascii_of_string s.

End PyStr.
Import PyStr.

(** ** The body-text filter *)

Definition copyright_sign : string := String (ascii_of_N 169) EmptyString.

Definition noise_patterns : list string :=
  ["www."; "http"; ".com"; "appendix"; "copyright"; copyright_sign;
   "table"; "figure"].

Definition _is_likely_body_text (text : string) : bool :=
(* Long paragraphs are likely body text *)
if (400 <? len text) && negb (isupper text) then true else
(* Pure numbers or very short numbers *)
if isdigit text || ((len text <=? 3) && isdigit text) then true else
let text_lower := lower text in
(* Common non-heading patterns *)
if existsb (fun pattern => contains pattern text_lower) noise_patterns
then true else
(* Very short or empty text *)
if len (strip text) <=? 1 then true else
(* URLs and emails *)
if contains "@" text || contains "http" text_lower then true else
(* Short all-caps might be headers, but could also be noise *)
if isupper text && (len text <? 15) then true else
(* Text with many separators is likely formatting *)
if contains "-" text || contains ":" text then
  if (3 <? count "-" text) || (2 <? count ":" text) then true else false
else false.

(** ** Python [list.sort]

    [list.sort(key=k, reverse=r)] compares keys with [<] only and is
    stable.  With [reverse=True] the list is reversed, sorted and reversed
    again, which keeps elements with equal keys in their original order. *)

Module PySort.
Section Sort.
Context {A K : Type}.
Variable key : A -> K.
Variable lt : K -> K -> bool.

Fixpoint insert (x : A) (s : list A) : list A :=
  match s with
  | [] => [x]
  | y :: ys => if lt (key y) (key x) then y :: insert x ys else x :: y :: ys
  end.

Fixpoint stable_sort (l : list A) : list A :=
  match l with
  | [] => []
  | x :: xs => insert x (stable_sort xs)
  end.

Definition py_sort (reverse : bool) (l : list A) : list A :=
  if reverse then rev (stable_sort (rev l)) else stable_sort l.
End Sort.
End PySort.
Import PySort.

(** ** Numbers *)

Definition Qcltb (x y : Qc) : bool :=
  match (x ?= y)%Qc with Lt => true | _ => false end.

Definition Qcleb (x y : Qc) : bool := negb (Qcltb y x).

(** [max(a, b)]: the first argument unless the second is greater. *)
Definition py_max (a b : Qc) : Qc := if Qcltb a b then b else a.

Definition Qc_of_Z (z : Z) : Qc := Q2Qc (inject_Z z).

(** [(a1, b1) < (a2, b2)] on tuples: the first differing component
    decides. *)
Definition tuple_lt (p q : nat * Qc) : bool :=
  if fst p =? fst q then Qcltb (snd p) (snd q) else fst p <? fst q.

(** ** The layout tree of the PDF library *)

Definition exn := string.

Record Span := {
  span_text : string;
  span_size : Qc;
  span_flags : Z;
  span_bbox : PrimFloat.float * PrimFloat.float
              * PrimFloat.float * PrimFloat.float
}.

(** [line.get("spans", [])] *)
Record Line := { line_spans : list Span }.

(** A block without the key ['lines'] (an image block) has [None]. *)
Record Block := { block_lines : option (list Line) }.

Record Page := { page_width : PrimFloat.float; page_blocks : list Block }.

(** [doc[i]] and [page.get_text("dict")] read the file lazily: a read that
    fails raises, [inl e].  The library keeps state between reads, so a
    read of a page that raises need not raise again.  [doc_pages] holds
    the outcomes of the reads [extract_font_info] makes, one per page in
    page order; [doc_title_read] holds the outcome of the earlier read of
    the first page by [extract_title] when it differs from the later
    one. *)
Record Document := {
  doc_pages : list (exn + Page);
  doc_title_read : option (exn + Page)
}.

(** The outcome of [doc[0]] and [get_text] in [extract_title], for a
    document with a page. *)
Definition first_read (doc : Document) (later_read : exn + Page)
    : exn + Page :=
  match doc_title_read doc with
  | Some outcome => outcome
  | None => later_read
  end.

Record PDFOutlineExtractor := {
  min_font_size : Qc;
  min_text_length : Z
}.

Definition default_extractor : PDFOutlineExtractor :=
  {| min_font_size := Qc_of_Z 10; min_text_length := 3%Z |}.

(** ** [extract_title] *)

Section Title.
Variable self : PDFOutlineExtractor.

Definition title_span_step (width : PrimFloat.float)
    (acc : string * bool * Qc) (span : Span) : string * bool * Qc :=
  let '(line_text, line_centered, max_font_size) := acc in
  let text := strip (span_text span) in
  let font_size := span_size span in
  let '(x0, _, x1, _) := span_bbox span in
  (* Calculate if text is centered on the page *)
  let center := PrimFloat.div (PrimFloat.add x0 x1) 2%float in
  let page_center := PrimFloat.div width 2%float in
  let centered :=
    PrimFloat.ltb (PrimFloat.abs (PrimFloat.sub center page_center))
                  (PrimFloat.mul width 0.25%float) in
  if centered && Qcleb (min_font_size self) font_size
  then (line_text ++ text ++ " ", true, py_max max_font_size font_size)
  else acc.

Definition title_line_step (width : PrimFloat.float)
    (title_lines : list (Qc * string)) (line : Line) : list (Qc * string) :=
  let '(line_text, line_centered, max_font_size) :=
    fold_left (title_span_step width) (line_spans line)
              (EmptyString, false, 0%Qc) in
  if line_centered
     && (min_text_length self <=? Z.of_nat (len (strip line_text)))%Z
  then title_lines ++ [(max_font_size, strip line_text)]
  else title_lines.

Definition title_block_step (width : PrimFloat.float)
    (title_lines : list (Qc * string)) (block : Block)
    : list (Qc * string) :=
  match block_lines block with
  | None => title_lines
  | Some lines => fold_left (title_line_step width) lines title_lines
  end.

(** The body of the [try] block. *)
Definition extract_title_body (doc : Document) : exn + string :=
  match doc_pages doc with
  | [] => inr EmptyString
  | later_read :: _ =>
      match first_read doc later_read with
      | inl e => inl e
      | inr first_page =>
          let width := page_width first_page in
          let title_lines :=
            fold_left (title_block_step width) (page_blocks first_page) [] in
          match title_lines with
          | [] => inr EmptyString
          | _ =>
              let title_lines := py_sort fst Qcltb true title_lines in
              let top_lines := map snd (firstn 2 title_lines) in
              inr (strip (join " " top_lines))
          end
      end
  end.

Definition extract_title (doc : Document) : string :=
  match extract_title_body doc with
  | inr title => title
  | inl _ => EmptyString
  end.
End Title.

(** ** [extract_font_info] *)

Definition FontInfo : Type := string * Qc * bool * nat.

Definition fi_text (x : FontInfo) : string := let '(t, _, _, _) := x in t.
Definition fi_size (x : FontInfo) : Qc := let '(_, s, _, _) := x in s.
Definition fi_bold (x : FontInfo) : bool := let '(_, _, b, _) := x in b.
Definition fi_page (x : FontInfo) : nat := let '(_, _, _, p) := x in p.

(** [max(iterable)] over a non-empty iterable. *)
Definition max_of (first : Qc) (rest : list Qc) : Qc :=
  fold_left py_max rest first.

Section FontInfo.
Variable self : PDFOutlineExtractor.

Definition info_span_step (acc : string * Qc * bool) (span : Span)
    : string * Qc * bool :=
  let '(line_text, font_size, is_bold) := acc in
  let text := strip (span_text span) in
  let size := span_size span in
  let flags := span_flags span in
  match text with
  | EmptyString => acc
  | _ => (line_text ++ text ++ " ", py_max font_size size,
          is_bold || negb (Z.land flags 16 =? 0)%Z)
  end.

Definition info_line_step (lines : list (string * Qc * bool))
    (line : Line) : list (string * Qc * bool) :=
  let '(line_text, font_size, is_bold) :=
    fold_left info_span_step (line_spans line)
              (EmptyString, 0%Qc, false) in
  let line_text := strip line_text in
  match line_text with
  | EmptyString => lines
  | _ =>
      if Qcleb (min_font_size self) font_size
      then lines ++ [(line_text, font_size, is_bold)]
      else lines
  end.

Definition info_block_step (page_num : nat) (font_info : list FontInfo)
    (block : Block) : list FontInfo :=
  match block_lines block with
  | None => font_info
  | Some lines =>
      match fold_left info_line_step lines [] with
      | [] => font_info
      | (first :: rest) as lines' =>
          let combined_text := strip (join " " (map (fun l => fst (fst l)) lines')) in
          let max_font_size :=
            max_of (snd (fst first)) (map (fun l => snd (fst l)) rest) in
          let bold := existsb (fun l => snd l) lines' in
          if (min_text_length self <=? Z.of_nat (len combined_text))%Z
             && negb (_is_likely_body_text combined_text)
          then
            if Qcltb (Qc_of_Z 12) max_font_size || bold
            then font_info ++ [(combined_text, max_font_size, bold, page_num + 1)]
            else font_info
          else font_info
      end
  end.

(** The loop over [range(len(doc))], from page index [page_num] on. *)
Fixpoint info_pages (pages : list (exn + Page)) (page_num : nat)
    (font_info : list FontInfo) : exn + list FontInfo :=
  match pages with
  | [] => inr font_info
  | inl e :: _ => inl e
  | inr page :: rest =>
      info_pages rest (S page_num)
        (fold_left (info_block_step page_num) (page_blocks page) font_info)
  end.

Definition extract_font_info (doc : Document) : exn + list FontInfo :=
  info_pages (doc_pages doc) 0 [].
End FontInfo.

(** ** [determine_heading_levels] *)

Inductive Level := H1 | H2 | H3.

Record Heading := { level : Level; text : string; page : nat }.

Definition heading_levels : list Level := [H1; H2; H3].

Definition Level_eq_dec (a b : Level) : {a = b} + {a <> b}.
Proof. decide equality. Defined.

(** The set comprehension over the font sizes: a set kept as a list
    without repetition. *)
Definition set_add (x : Qc) (s : list Qc) : list Qc :=
  if existsb (Qc_eq_bool x) s then s else s ++ [x].

Definition size_set (font_info : list FontInfo) : list Qc :=
  fold_left (fun s x => set_add (fi_size x) s) font_info [].

(** The dictionary [size_to_level]. *)
Definition Dict : Type := list (Qc * Level).

Fixpoint dict_get (d : Dict) (k : Qc) : option Level :=
  match d with
  | [] => None
  | (k', v) :: d' => if Qc_eq_bool k k' then Some v else dict_get d' k
  end.

Fixpoint dict_set (d : Dict) (k : Qc) (v : Level) : Dict :=
  match d with
  | [] => [(k, v)]
  | (k', v') :: d' =>
      if Qc_eq_bool k k' then (k', v) :: d' else (k', v') :: dict_set d' k v
  end.

Definition enumerate {A : Type} (l : list A) : list (nat * A) :=
  combine (seq 0 (List.length l)) l.

(** [heading_levels[i]]; the index is below [len(heading_levels)] wherever
    it is used. *)
Definition level_at (i : nat) : Level := nth i heading_levels H3.

Definition assign_levels (font_sizes : list Qc) : Dict :=
  fold_left (fun d (e : nat * Qc) => dict_set d (snd e) (level_at (fst e)))
            (enumerate (firstn (List.length heading_levels) font_sizes)) [].

Definition key_page_size (x : FontInfo) : nat * Qc := (fi_page x, fi_size x).

Definition key_page_neg_size (x : FontInfo) : nat * Qc :=
  (fi_page x, (- fi_size x)%Qc).

Definition seen_mem (s : string) (seen : list string) : bool :=
  existsb (String.eqb s) seen.

(** One iteration of the loop that emits the headings. *)
Definition heading_step (size_to_level : Dict)
    (st : list Heading * list string) (x : FontInfo)
    : list Heading * list string :=
  let '(headings, seen) := st in
  let '(text, font_size, is_bold, page_num) := x in
  match dict_get size_to_level font_size with
  | None => st
  | Some lv =>
      let cleaned := strip text in
(* Skip duplicates (case-insensitive) *)
if seen_mem (lower cleaned) seen then st
else ((headings ++ [ {| level := lv; text := cleaned; page := page_num |} ])%list,
      lower cleaned :: seen)
end.

Definition size_to_level_of (font_info : list FontInfo) : Dict :=
  assign_levels (py_sort (fun s : Qc => s) Qcltb true (size_set font_info)).

(** The list as the loop iterates over it: sorted twice in place. *)
Definition processing_order (font_info : list FontInfo) : list FontInfo :=
  py_sort key_page_neg_size tuple_lt false
    (py_sort key_page_size tuple_lt true font_info).

(** The first component is the caller's list after the call, the second
    the returned headings. *)
Definition determine_heading_levels (font_info : list FontInfo)
    : list FontInfo * list Heading :=
  match font_info with
  | [] => ([], [])
  | _ =>
(* Sort by page and font size for consistent processing *)
let font_info1 := py_sort key_page_size tuple_lt true font_info in
(* Get unique font sizes and map them to heading levels *)
let font_sizes := size_set font_info1 in
let font_sizes := py_sort (fun s : Qc => s) Qcltb true font_sizes in
let size_to_level := assign_levels font_sizes in
(* Sort by page order and font size *)
let font_info2 := py_sort key_page_neg_size tuple_lt false font_info1 in
let '(headings, _) :=
  fold_left (heading_step size_to_level) font_info2 ([], []) in
(font_info2, headings)
end.

(** The dictionary the call builds for the caller's list. *)
Definition size_to_level (font_info : list FontInfo) : Dict :=
  size_to_level_of (py_sort key_page_size tuple_lt true font_info).

(** The record appended for a candidate that has a level. *)
Definition heading_of (size_to_level : Dict) (x : FontInfo) : Heading :=
  {| level := match dict_get size_to_level (fi_size x) with
              | Some lv => lv
              | None => H3
              end;
     text := strip (fi_text x);
     page := fi_page x |}.

Definition has_level (size_to_level : Dict) (x : FontInfo) : bool :=
  match dict_get size_to_level (fi_size x) with
  | Some _ => true
  | None => false
  end.

(** ** [extract_outline] *)

Record Outline := { title : string; outline : list Heading }.

(** What the call can touch outside its arguments: the documents that are
    open and the lines printed. *)
Record World := { open_docs : list string; printed : list string }.

Definition FileSystem : Type := string -> exn + Document.

(** [fitz.open(pdf_path)] *)
Definition fitz_open (fs : FileSystem) (pdf_path : string) (w : World)
    : (exn + Document) * World :=
  match fs pdf_path with
  | inl e => (inl e, w)
  | inr doc =>
      (inr doc, {| open_docs := pdf_path :: open_docs w; printed := printed w |})
  end.

Fixpoint remove_first (p : string) (l : list string) : list string :=
  match l with
  | [] => []
  | q :: l' => if String.eqb p q then l' else q :: remove_first p l'
  end.

(** [doc.close()] *)
Definition doc_close (pdf_path : string) (w : World) : World :=
  {| open_docs := remove_first pdf_path (open_docs w); printed := printed w |}.

Definition print (line : string) (w : World) : World :=
  {| open_docs := open_docs w; printed := printed w ++ [line] |}.

Definition empty_outline : Outline := {| title := EmptyString; outline := [] |}.

Section Outline.
Variable self : PDFOutlineExtractor.
Variable fs : FileSystem.

(** The [except Exception as e] handler. *)
Definition on_error (pdf_path : string) (e : exn) (w : World)
    : Outline * World :=
  (empty_outline, print ("Error processing " ++ pdf_path ++ ": " ++ e) w).

Definition extract_outline (pdf_path : string) (w : World)
    : Outline * World :=
  match fitz_open fs pdf_path w with
  | (inl e, w1) => on_error pdf_path e w1
  | (inr doc, w1) =>
(* Extract title and headings *)
let title := extract_title self doc in
match extract_font_info self doc with
| inl e => on_error pdf_path e w1
| inr font_info =>
    let headings := snd (determine_heading_levels font_info) in
(* Remove title from headings to avoid duplication *)
let filtered_outline :=
  filter (fun h => negb (String.eqb (lower (strip (text h)))
                                    (lower (strip title))))
         headings in
let w2 := doc_close pdf_path w1 in
({| title := strip title; outline := filtered_outline |}, w2)
end
end.
End Outline.

(** ** [process_folder]

    The operating system is a parameter: creating the output directory,
    listing the input directory and opening an output file for writing can
    each fail.  [json.dump] is taken as a function from results to file
    contents.  The arrow the progress lines start with (U+2192) lies
    outside the range of the string model and is a parameter too. *)

Module PyPath.

(** [s.endswith(suffix)] *)
Fixpoint endswith (suffix s : string) : bool :=
  String.eqb s suffix
  || match s with
     | EmptyString => false
     | String _ r => endswith suffix r
     end.

(** The parts of [s] before and after the last occurrence of [c]. *)
Fixpoint rsplit (c : ascii) (s : string) : option (string * string) :=
  match s with
  | EmptyString => None
  | String d r =>
      match rsplit c r with
      | Some (a, b) => Some (String d a, b)
      | None => if Ascii.eqb d c then Some (EmptyString, r) else None
      end
  end.

(** [os.path.splitext(p)]: the extension starts at the last dot of the
    last path component; leading dots of that component belong to the
    root. *)
Definition splitext (p : string) : string * string :=
  let '(dir, name) :=
    match rsplit "/" p with
    | Some (a, b) => (a ++ "/", b)
    | None => (EmptyString, p)
    end in
  match rsplit "." name with
  | Some (root, ext) =>
      if all_chars (fun c => Ascii.eqb c ".") root
      then (p, EmptyString)
      else (dir ++ root, "." ++ ext)
  | None => (p, EmptyString)
  end.

Definition startswith_sep (s : string) : bool :=
  match s with
  | String c _ => Ascii.eqb c "/"
  | EmptyString => false
  end.

(** [os.path.join(a, b)] *)
Definition path_join (a b : string) : string :=
  if startswith_sep b then b
  else if String.eqb a EmptyString || endswith "/" a then a ++ b
  else a ++ "/" ++ b.

(** [str(n)] for a length. *)
Definition str_of_nat (n : nat) : string :=
  NilZero.string_of_uint (Nat.to_uint n).

End PyPath.
Import PyPath.

Record OS := {
  (** [fitz.open] *)
  os_files : FileSystem;
  (** [os.makedirs(path, exist_ok=True)]: the error it raises, if any *)
  os_makedirs : string -> option exn;
  (** [os.listdir(path)] *)
  os_listdir : string -> exn + list string;
  (** [open(path, 'w', encoding='utf-8')]: the error it raises, if any *)
  os_open_write : string -> option exn
}.

(** The world of the batch: the world of [extract_outline] and the files
    written, in the order of the writes.  The directories that exist are
    not part of it: what [os.makedirs] creates is not tracked. *)
Record Machine := {
  world : World;
  written : list (string * string)
}.

Section Batch.
Variable self : PDFOutlineExtractor.
Variable os : OS.
Variable json_dump : Outline -> string.
Variable arrow : string.

(** The condition of the list comprehension. *)
Definition is_pdf (f : string) : bool := endswith ".pdf" (lower f).

Definition base_name_of (filename : string) : string :=
  fst (splitext filename).

Definition output_path_of (output_folder filename : string) : string :=
  path_join output_folder (base_name_of filename ++ ".json").

(** One iteration of the loop over [pdf_files]. *)
Definition process_file (input_folder output_folder : string)
    (m : Machine) (filename : string) : Machine :=
  let input_path := path_join input_folder filename in
  let base_name := base_name_of filename in
  let output_path := path_join output_folder (base_name ++ ".json") in
  let w1 := print ("Processing: " ++ filename) (world m) in
  let '(result, w2) := extract_outline self (os_files os) input_path w1 in
  (* Save the extracted outline as JSON *)
  match os_open_write os output_path with
  | None =>
      {| world :=
           print ("  " ++ arrow ++ " Saved: " ++ base_name ++ ".json (found "
                  ++ str_of_nat (List.length (outline result)) ++ " headings)")
                 w2;
         written := (written m ++ [(output_path, json_dump result)])%list |}
  | Some e =>
      {| world :=
           print ("  " ++ arrow ++ " Error saving " ++ base_name ++ ".json: "
                  ++ e) w2;
         written := written m |}
  end.

(** [None] when the call returns, [Some e] when it raises [e]. *)
Definition process_folder (input_folder output_folder : string)
    (m : Machine) : option exn * Machine :=
  (* Create output directory if it doesn't exist *)
  match os_makedirs os output_folder with
  | Some e => (Some e, m)
  | None =>
      (* Find all PDF files *)
      match os_listdir os input_folder with
      | inl e => (Some e, m)
      | inr names =>
          let pdf_files := filter is_pdf names in
          match pdf_files with
          | [] =>
              (None,
               {| world := print ("No PDF files found in " ++ input_folder)
                                 (world m);
                  written := written m |})
          | _ =>
              let m1 :=
                {| world :=
                     print ("Found " ++ str_of_nat (List.length pdf_files)
                            ++ " PDF files to process") (world m);
                   written := written m |} in
              (* Process each PDF file *)
              (None,
               fold_left (process_file input_folder output_folder)
                         pdf_files m1)
          end
      end
  end.
End Batch.

(** * Specifications

    The properties below are stated against these definitions, which
    follow the wording of the specification. *)

(** ** The body-text filter, as the specification words it *)

Module BodyTextSpec.

(** "fully uppercase": some cased character is uppercase and none is
    lowercase. *)
Definition fully_uppercase (s : string) : Prop :=
  (exists c, In c (chars s) /\ is_upper_char c = true)
  /\ forall c, In c (chars s) -> is_lower_char c = false.

(** "consists entirely of digits" *)
Definition all_digits (s : string) : Prop :=
  forall c, In c (chars s) -> is_digit_char c = true.

Definition has_substring (pat s : string) : Prop :=
  exists a b, s = a ++ pat ++ b.

Definition occurrences (c : ascii) (s : string) : nat :=
  count_occ ascii_dec (chars s) c.

Definition body_text (text : string) : Prop :=
  (400 < String.length text /\ ~ fully_uppercase text)
  \/ all_digits text
  \/ (exists p, In p noise_patterns /\ has_substring p (lower text))
  \/ String.length (strip text) <= 1
  \/ (has_substring "@" text \/ has_substring "http" (lower text))
  \/ (fully_uppercase text /\ String.length text < 15)
  \/ (3 < occurrences "-" text \/ 2 < occurrences ":" text).

End BodyTextSpec.

(** ** Sorted lists *)

Section SortSpec.
Context {A K : Type}.
Variable key : A -> K.
Variable lt : K -> K -> bool.

(** [x] may stand before [y] in a list sorted by ascending key: the key
    of [y] is not strictly below the key of [x]. *)
Definition ascending (x y : A) : Prop := lt (key y) (key x) = false.

(** The same for a list sorted with [reverse=True]. *)
Definition descending (x y : A) : Prop := lt (key x) (key y) = false.
End SortSpec.

(** ** The heading leveler, as the specification words it *)

Module LevelSpec.

(** Page ascending, then font size descending. *)
Definition page_size_order (a b : FontInfo) : Prop :=
  fi_page a < fi_page b
  \/ (fi_page a = fi_page b /\ (fi_size b <= fi_size a)%Qc).

(** H1 is the most senior level. *)
Definition level_number (lv : Level) : nat :=
  match lv with H1 => 1 | H2 => 2 | H3 => 3 end.

(** The order of the emitted records: page ascending, then from the
    larger heading font (the more senior level) to the smaller. *)
Definition heading_order (a b : Heading) : Prop :=
  page a < page b
  \/ (page a = page b /\ level_number (level a) <= level_number (level b)).

Definition sizes (font_info : list FontInfo) : list Qc :=
  map fi_size font_info.

(** The distinct font sizes of the document. *)
Definition distinct_sizes (font_info : list FontInfo) : list Qc :=
  nodup Qc_eq_dec (sizes font_info).

(** The rank of a size, from 0 for the largest: the number of distinct
    sizes of the document that are strictly larger. *)
Definition rank (font_info : list FontInfo) (s : Qc) : nat :=
  List.length (filter (fun t => Qcltb s t) (distinct_sizes font_info)).

(** Largest to H1, second-largest to H2, third-largest to H3, the others
    to no level. *)
Definition level_of_rank (r : nat) : option Level :=
  match r with
  | 0 => Some H1
  | 1 => Some H2
  | 2 => Some H3
  | _ => None
  end.

(** The size of the candidate ranks first, second or third. *)
Definition in_top_three (font_info : list FontInfo) (x : FontInfo) : bool :=
  rank font_info (fi_size x) <? 3.

(** The record of a candidate, with the level of the rank of its size. *)
Definition ranked_heading (font_info : list FontInfo) (x : FontInfo)
    : Heading :=
  {| level := match level_of_rank (rank font_info (fi_size x)) with
              | Some lv => lv
              | None => H3
              end;
     text := strip (fi_text x);
     page := fi_page x |}.

(** The key of the deduplication: the lowercased, trimmed text. *)
Definition text_key (s : string) : string := lower (strip s).

Definition candidate_key (x : FontInfo) : string := text_key (fi_text x).

Definition heading_key (h : Heading) : string := text_key (text h).

(** Only the first occurrence of every key is kept. *)
Fixpoint first_occurrences {X : Type} (key : X -> string) (l : list X)
    : list X :=
  match l with
  | [] => []
  | x :: r =>
      x :: filter (fun y => negb (String.eqb (key y) (key x)))
                  (first_occurrences key r)
  end.

(** [a] is [b] with some elements left out, the others in order. *)
Inductive subsequence {X : Type} : list X -> list X -> Prop :=
| subsequence_nil : subsequence [] []
| subsequence_keep x a b : subsequence a b -> subsequence (x :: a) (x :: b)
| subsequence_skip x a b : subsequence a b -> subsequence a (x :: b).

(** Two candidates tie when they agree on page and font size. *)
Definition tie (p : nat) (s : Qc) (x : FontInfo) : bool :=
  (fi_page x =? p) && Qc_eq_bool (fi_size x) s.

End LevelSpec.

(** ** The scenarios of the specification *)

Module Scenario.

(** The candidates of the two-page document. *)
Definition two_pages : list FontInfo :=
  [("Chapter 1", Qc_of_Z 18, false, 1);
   ("Section 1.1", Qc_of_Z 14, false, 2);
   ("Section 1.2", Qc_of_Z 14, false, 2)].

Definition two_pages_outline : list Heading :=
  [{| level := H1; text := "Chapter 1"; page := 1 |};
   {| level := H2; text := "Section 1.1"; page := 2 |};
   {| level := H2; text := "Section 1.2"; page := 2 |}].

(** The same heading text on two pages, in two sizes and two cases. *)
Definition repeated : list FontInfo :=
  [("Summary", Qc_of_Z 18, false, 1);
   (" SUMMARY ", Qc_of_Z 14, true, 2)].

(** Candidates that are not in page order. *)
Definition unordered : list FontInfo :=
  [("Later", Qc_of_Z 14, false, 2); ("Sooner", Qc_of_Z 18, false, 1)].

Definition centered_span (t : string) (size : Z) : Span :=
  {| span_text := t; span_size := Qc_of_Z size; span_flags := 0%Z;
     span_bbox := (200, 100, 412, 130)%float |}.

Definition left_span (t : string) (size : Z) : Span :=
  {| span_text := t; span_size := Qc_of_Z size; span_flags := 0%Z;
     span_bbox := (20, 200, 120, 230)%float |}.

Definition one_line_block (sp : Span) : Block :=
  {| block_lines := Some [ {| line_spans := [sp] |} ] |}.

(** A page of width 612 with one centered line at font size 24. *)
Definition annual_report : Document :=
  {| doc_pages :=
       [inr {| page_width := 612%float;
               page_blocks :=
                 [one_line_block (centered_span "Annual Report 2024" 24)] |}];
     doc_title_read := None |}.

(** A centered title line and a heading, on the left, whose text
    contains the title. *)
Definition report_with_overview : Document :=
  {| doc_pages :=
       [inr {| page_width := 612%float;
               page_blocks :=
                 [one_line_block (centered_span "Annual Report" 24);
                  one_line_block (left_span "Annual Report Overview" 18)] |}];
     doc_title_read := None |}.

(** A document that opens but whose only page cannot be read, at any
    read. *)
Definition unreadable : Document :=
  {| doc_pages := [inl "cannot read page 1"]; doc_title_read := None |}.

(** The pages of [report_with_overview], but the first read of page 1,
    the one [extract_title] makes, raises; the later read succeeds. *)
Definition flaky : Document :=
  {| doc_pages := doc_pages report_with_overview;
     doc_title_read := Some (inl "transient read error") |}.

Definition flaky_files (pdf_path : string) : exn + Document := inr flaky.




Definition files (pdf_path : string) : exn + Document :=
  if String.eqb pdf_path "report.pdf" then inr annual_report
  else if String.eqb pdf_path "overview.pdf" then inr report_with_overview
  else if String.eqb pdf_path "broken.pdf" then inr unreadable
  else inl "no such file".

(** No document open, nothing printed. *)
Definition idle : World := {| open_docs := []; printed := [] |}.

(** A document without pages. *)
Definition no_pages : Document :=
  {| doc_pages := []; doc_title_read := None |}.

(** An input directory with three PDF files and a text file; the output
    file of the last PDF cannot be written. *)
Definition batch_os : OS :=
  {| os_files := files;
     os_makedirs := fun _ => None;
     os_listdir :=
       fun _ => inr ["report.pdf"; "notes.txt"; "broken.pdf"; "overview.pdf"];
     os_open_write :=
       fun p => if String.eqb p "out/overview.json"
                then Some "permission denied" else None |}.

(** An input directory without any PDF file. *)
Definition text_only_os : OS :=
  {| os_files := files;
     os_makedirs := fun _ => None;
     os_listdir := fun _ => inr ["notes.txt"; "pdf"];
     os_open_write := fun _ => None |}.

(** Nothing open, nothing printed, nothing written. *)
Definition fresh : Machine := {| world := idle; written := [] |}.

(** A stand-in for [json.dump] in the examples: the content written is
    the title. *)
Definition dump_title (result : Outline) : string := title result.

End Scenario.

(** ** The title detector, as the specification words it *)

Module TitleSpec.




Section Title.
Variable self : PDFOutlineExtractor.

(** The font size a line is sorted by, from the sizes of its qualifying
    spans. *)
Variable line_size : list Qc -> Qc.

(** The horizontal center of a span, as a double. *)
Definition span_center (sp : Span) : float :=
  let '(x0, _, x1, _) := span_bbox sp in
  PrimFloat.div (PrimFloat.add x0 x1) 2%float.

(** The span's center lies within 25% of the page width from the page's
    center (the distance and the quarter of the width computed in
    doubles), and its font size meets the threshold. *)
Definition qualifies (width : float) (sp : Span) : bool :=
  PrimFloat.ltb
    (PrimFloat.abs (PrimFloat.sub (span_center sp)
                                  (PrimFloat.div width 2%float)))
    (PrimFloat.mul width 0.25%float)
  && Qcleb (min_font_size self) (span_size sp).

Definition qualifying (width : float) (line : Line) : list Span :=
  filter (qualifies width) (line_spans line).

(** The concatenated text of the qualifying spans, trimmed. *)
Definition line_text (width : float) (line : Line) : string :=
  strip (fold_right (fun sp rest => strip (span_text sp) ++ " " ++ rest)
                    EmptyString (qualifying width line)).

(** The entry collected for a line: its font size and its text, when
    some span qualifies and the text is long enough. *)
Definition line_entry (width : float) (line : Line) : list (Qc * string) :=
  match qualifying width line with
  | [] => []
  | spans =>
      if (min_text_length self <=? Z.of_nat (len (line_text width line)))%Z
      then [(line_size (map span_size spans), line_text width line)]
      else []
  end.

Definition block_entries (width : float) (block : Block)
    : list (Qc * string) :=
  match block_lines block with
  | None => []
  | Some lines => flat_map (line_entry width) lines
  end.

(** The lines collected over one page. *)
Definition page_entries (page : Page) : list (Qc * string) :=
  flat_map (block_entries (page_width page)) (page_blocks page).

(** Sorted by font size, largest first. *)
Definition ranked (entries : list (Qc * string)) : list (Qc * string) :=
  py_sort fst Qcltb true entries.

(** The texts of the top two entries (or fewer), joined with a single
    space and trimmed. *)
Definition title_of (entries : list (Qc * string)) : string :=
  strip (join " " (map snd (firstn 2 (ranked entries)))).

(** Page 1 only, as [extract_title] reads it; the empty string without a
    page or when the read fails. *)
Definition title (doc : Document) : string :=
  match doc_pages doc with
  | [] => EmptyString
  | later_read :: _ =>
      match first_read doc later_read with
      | inr first_page => title_of (page_entries first_page)
      | inl _ => EmptyString
      end
  end.
End Title.
End TitleSpec.

(** ** The orchestrator, as the specification words it *)

Module OutlineSpec.

(** Reading the document fails with [e] while the font information is
    collected: page by page, the first read that fails raises [e]. *)
Definition read_failure (doc : Document) (e : exn) : Prop :=
  exists (readable : list Page) (rest : list (exn + Page)),
    doc_pages doc = (map inr readable ++ inl e :: rest)%list.

(** Opening the file at [pdf_path] fails with [e], or reading it fails
    with [e] while the font information is collected. *)
Definition failure (fs : FileSystem) (pdf_path : string) (e : exn) : Prop :=
  fs pdf_path = inl e
  \/ exists doc, fs pdf_path = inr doc /\ read_failure doc e.

(** The read of the first page by [extract_title] fails with [e]. *)
Definition title_read_failure (doc : Document) (e : exn) : Prop :=
  exists later_read rest,
    doc_pages doc = later_read :: rest
    /\ first_read doc later_read = inl e.

(** Any failure while opening or reading the file at [pdf_path]: also one
    inside the title extraction. *)
Definition any_failure (fs : FileSystem) (pdf_path : string) (e : exn)
    : Prop :=
  failure fs pdf_path e
  \/ exists doc, fs pdf_path = inr doc /\ title_read_failure doc e.

(** The report names the file and the error. *)
Definition report (pdf_path : string) (e : exn) : string :=
  "Error processing " ++ pdf_path ++ ": " ++ e.

End OutlineSpec.

(** ** The span aggregator, as its source reads *)

Module FontInfoSpec.

(** What [extract_font_info] checks before it appends a candidate. *)
Definition candidate_ok (self : PDFOutlineExtractor) (x : FontInfo) : Prop :=
  strip (fi_text x) = fi_text x
  /\ (min_text_length self <= Z.of_nat (len (fi_text x)))%Z
  /\ _is_likely_body_text (fi_text x) = false
  /\ (min_font_size self <= fi_size x)%Qc
  /\ ((Qc_of_Z 12 < fi_size x)%Qc \/ fi_bold x = true).

(** Every page of the document can be read. *)
Definition readable (doc : Document) : Prop :=
  exists pages : list Page, doc_pages doc = map inr pages.

(** The number of layout blocks on the pages that can be read. *)
Definition layout_blocks (pages : list (exn + Page)) : nat :=
  list_sum (map (fun p : exn + Page =>
                   match p with
                   | inr page => List.length (page_blocks page)
                   | inl _ => 0
                   end) pages).

End FontInfoSpec.

(** ** The batch, as its source reads *)

Module BatchSpec.

(** The result for one file, whatever the world it is processed in. *)
Definition outline_of (self : PDFOutlineExtractor) (fs : FileSystem)
    (pdf_path : string) : Outline :=
  fst (extract_outline self fs pdf_path {| open_docs := []; printed := [] |}).

(** The output file for [filename] can be opened for writing. *)
Definition writable (os : OS) (output_folder filename : string) : bool :=
  match os_open_write os (output_path_of output_folder filename) with
  | None => true
  | Some _ => false
  end.

(** [c] does not occur in [s]. *)
Definition free_of (c : ascii) (s : string) : Prop := ~ In c (chars s).

End BatchSpec.

(** * Properties *)

(** ** Strings *)

Section StringFacts.

Lemma all_chars_spec (p : ascii -> bool) (s : string) :
  all_chars p s = true <-> forall c, In c (chars s) -> p c = true.
Proof.
  induction s as [|d r IH]; simpl.
  - split; [intros _ c [] | reflexivity].
  - rewrite andb_true_iff, IH. split.
    + intros [Hd Hr] c [<-|Hc]; auto.
    + intros H. split; [apply H; now left | intros c Hc; apply H; now right].
Qed.

Lemma any_char_spec (p : ascii -> bool) (s : string) :
  any_char p s = true <-> exists c, In c (chars s) /\ p c = true.
Proof.
  induction s as [|d r IH]; simpl.
  - split; [discriminate | intros (c & [] & _)].
  - rewrite orb_true_iff, IH. split.
    + intros [Hd | (c & Hc & Hp)]; [exists d | exists c]; auto.
    + intros (c & [<- | Hc] & Hp); [now left | right; now exists c].
Qed.

Lemma prefix_spec (pat s : string) :
  String.prefix pat s = true <-> exists b, s = pat ++ b.
Proof.
  revert s. induction pat as [|c pat IH]; intros s.
  - split; [intros _; now exists s | intros _; now destruct s].
  - destruct s as [|d s]; simpl.
    + split; [discriminate | intros (b & Hb); discriminate].
    + destruct (ascii_dec c d) as [<- | Hne].
      * rewrite IH. split; intros (b & Hb); exists b; congruence.
      * split; [discriminate | intros (b & Hb); congruence].
Qed.

Lemma contains_spec (pat s : string) :
  contains pat s = true <-> exists a b, s = a ++ pat ++ b.
Proof.
  induction s as [|d r IH].
  - unfold contains. rewrite orb_false_r, prefix_spec. split.
    + intros (b & Hb). now exists EmptyString, b.
    + intros (a & b & Hab). destruct a; simpl in Hab.
      * now exists b.
      * discriminate.
  - change (contains pat (String d r))
      with (String.prefix pat (String d r) || contains pat r).
    rewrite orb_true_iff, prefix_spec, IH. split.
    + intros [(b & Hb) | (a & b & Hab)].
      * now exists EmptyString, b.
      * exists (String d a), b. simpl. now rewrite Hab.
    + intros (a & b & Hab). destruct a as [|e a]; simpl in Hab.
      * left. now exists b.
      * right. exists a, b. congruence.
Qed.

Lemma count_spec (c : ascii) (s : string) :
  count c s = count_occ ascii_dec (chars s) c.
Proof.
  induction s as [|d r IH]; simpl; [reflexivity|].
  rewrite IH. destruct (ascii_dec d c) as [-> | Hne].
  - now rewrite Ascii.eqb_refl.
  - apply Ascii.eqb_neq in Hne. now rewrite Hne.
Qed.

Lemma count_pos_contains (c : ascii) (s : string) :
  0 < count c s -> contains (String c EmptyString) s = true.
Proof.
  induction s as [|d r IH]; simpl; [lia|].
  destruct (ascii_dec c d) as [<- | Hne].
  - intros _. now destruct r.
  - destruct (Ascii.eqb d c) eqn:E.
    + apply Ascii.eqb_eq in E. congruence.
    + simpl. intros H. rewrite (IH H). now destruct r.
Qed.

End StringFacts.

Section BodyText.
Import BodyTextSpec.

Lemma isupper_spec (s : string) : isupper s = true <-> fully_uppercase s.
Proof.
  unfold isupper, fully_uppercase.
  rewrite andb_true_iff, all_chars_spec, any_char_spec. split.
  - intros [Hl Hu]. split; [exact Hu|].
    intros c Hc. apply negb_true_iff. now apply Hl.
  - intros [Hu Hl]. split; [|exact Hu].
    intros c Hc. apply negb_true_iff. now apply Hl.
Qed.

Lemma isdigit_spec (s : string) :
  isdigit s = true <-> s <> EmptyString /\ all_digits s.
Proof.
  unfold isdigit, all_digits. destruct s as [|d r].
  - split; [discriminate | intros [H _]; now destruct H].
  - rewrite all_chars_spec. split; [intros H; split; [discriminate | exact H] | tauto].
Qed.

(** The cascade of early returns is the disjunction of its guards. *)
Lemma body_text_guards (text : string) :
  _is_likely_body_text text =
    ((400 <? len text) && negb (isupper text))
    || isdigit text
    || existsb (fun pattern => contains pattern (lower text)) noise_patterns
    || (len (strip text) <=? 1)
    || (contains "@" text || contains "http" (lower text))
    || (isupper text && (len text <? 15))
    || ((3 <? count "-" text) || (2 <? count ":" text)).
Proof.
  unfold _is_likely_body_text.
  destruct ((400 <? len text) && negb (isupper text)); [reflexivity|].
  destruct (isdigit text); [reflexivity|].
  rewrite andb_false_r. cbn [orb andb].
  destruct (existsb _ noise_patterns); [reflexivity|].
  destruct (len (strip text) <=? 1); [reflexivity|].
  destruct (contains "@" text || contains "http" (lower text)); [reflexivity|].
  destruct (isupper text && (len text <? 15)); [reflexivity|].
  cbn [orb].
  destruct (3 <? count "-" text) eqn:E3.
  - apply Nat.ltb_lt in E3.
    rewrite (count_pos_contains "-" text) by lia. reflexivity.
  - destruct (2 <? count ":" text) eqn:E2.
    + apply Nat.ltb_lt in E2.
      rewrite (count_pos_contains ":" text) by lia.
      now rewrite orb_true_r.
    + now destruct (contains "-" text || contains ":" text).
Qed.

Lemma body_text_iff (text : string) :
  _is_likely_body_text text = true <-> body_text text.
Proof.
  rewrite body_text_guards. unfold body_text, has_substring, occurrences, len.
  rewrite !orb_true_iff, !andb_true_iff, negb_true_iff.
  rewrite !Nat.ltb_lt, Nat.leb_le, <- !count_spec, <- !contains_spec.
  rewrite existsb_exists, <- isupper_spec.
  rewrite <- not_true_iff_false.
  split.
  - intros [[[[[[H|H]|H]|H]|H]|H]|H]; try tauto.
    + apply isdigit_spec in H. tauto.
    + destruct H as (p & Hp & Hc). right; right; left. exists p.
      split; [exact Hp | now apply contains_spec].
  - intros [H|[H|[H|[H|[H|[H|H]]]]]]; try tauto.
    + destruct text as [|d r].
      * do 3 left. right. simpl. lia.
      * do 5 left. right. apply isdigit_spec. split; [discriminate | exact H].
    + destruct H as (p & Hp & Hc). do 4 left. right. exists p.
      split; [exact Hp | now apply contains_spec].
Qed.

End BodyText.

(** ** Sorting *)

Section SortFacts.
Context {A K : Type}.
Variable key : A -> K.
Variable lt : K -> K -> bool.

Lemma insert_perm (x : A) (s : list A) :
  Permutation (insert key lt x s) (x :: s).
Proof.
  induction s as [|y ys IH]; simpl; [reflexivity|].
  destruct (lt (key y) (key x)); [|reflexivity].
  rewrite IH. apply perm_swap.
Qed.

Lemma stable_sort_perm (l : list A) : Permutation (stable_sort key lt l) l.
Proof.
  induction l as [|x xs IH]; simpl; [reflexivity|].
  rewrite insert_perm. now apply perm_skip.
Qed.

Lemma py_sort_perm (reverse : bool) (l : list A) :
  Permutation (py_sort key lt reverse l) l.
Proof.
  unfold py_sort. destruct reverse.
  - rewrite <- Permutation_rev, stable_sort_perm. symmetry. apply Permutation_rev.
  - apply stable_sort_perm.
Qed.

(** Elements selected by [P] that never compare strictly keep their
    relative order: the sort is stable. *)
Section Stable.
Variable P : A -> bool.
Hypothesis P_ties :
  forall x y, P x = true -> P y = true -> lt (key x) (key y) = false.

Lemma filter_insert (x : A) (s : list A) :
  filter P (insert key lt x s) = filter P (x :: s).
Proof.
  induction s as [|y ys IH]; [reflexivity|].
  cbn [insert]. destruct (lt (key y) (key x)) eqn:E; [|reflexivity].
  cbn [filter] in *. rewrite IH.
  destruct (P x) eqn:Px, (P y) eqn:Py; try reflexivity.
  rewrite (P_ties y x Py Px) in E. discriminate.
Qed.

Lemma filter_stable_sort (l : list A) :
  filter P (stable_sort key lt l) = filter P l.
Proof.
  induction l as [|x xs IH]; [reflexivity|].
  cbn [stable_sort]. rewrite filter_insert. cbn [filter]. now rewrite IH.
Qed.

Lemma filter_py_sort (reverse : bool) (l : list A) :
  filter P (py_sort key lt reverse l) = filter P l.
Proof.
  unfold py_sort. destruct reverse.
  - now rewrite filter_rev, filter_stable_sort, filter_rev, rev_involutive.
  - apply filter_stable_sort.
Qed.
End Stable.

(** Sortedness needs [lt] to be a strict weak order on the keys. *)
Section Sorted.
Hypothesis lt_asym : forall a b, lt a b = true -> lt b a = false.
Hypothesis lt_negtrans :
  forall a b c, lt a b = false -> lt b c = false -> lt a c = false.

Local Abbreviation ascending := (ascending key lt).
Local Abbreviation descending := (descending key lt).

Lemma insert_sorted (x : A) (s : list A) :
  StronglySorted ascending s -> StronglySorted ascending (insert key lt x s).
Proof.
  induction 1 as [|y ys Hs IH Hy]; cbn [insert].
  - repeat constructor.
  - destruct (lt (key y) (key x)) eqn:E.
    + constructor; [exact IH|].
      eapply Permutation_Forall; [symmetry; apply insert_perm|].
      constructor; [|exact Hy]. now apply lt_asym.
    + constructor; [now constructor|].
      constructor; [exact E|].
      eapply Forall_impl; [|exact Hy]. unfold ascending. intros z Hz.
      now apply (lt_negtrans _ (key y)).
Qed.

Lemma stable_sort_sorted (l : list A) :
  StronglySorted ascending (stable_sort key lt l).
Proof.
  induction l as [|x xs IH]; cbn [stable_sort]; [constructor|].
  now apply insert_sorted.
Qed.

Lemma StronglySorted_app (R : A -> A -> Prop) (l1 l2 : list A) :
  StronglySorted R l1 -> StronglySorted R l2 ->
  (forall a b, In a l1 -> In b l2 -> R a b) ->
  StronglySorted R (l1 ++ l2).
Proof.
  induction 1 as [|x xs Hs IH Hx]; intros H2 H12; simpl; [exact H2|].
  constructor.
  - apply IH; [exact H2|]. intros a b Ha Hb. apply H12; [now right | exact Hb].
  - apply Forall_app. split; [exact Hx|].
    apply Forall_forall. intros b Hb. apply H12; [now left | exact Hb].
Qed.

Lemma StronglySorted_rev (R : A -> A -> Prop) (l : list A) :
  StronglySorted R l -> StronglySorted (fun a b => R b a) (rev l).
Proof.
  induction 1 as [|x xs Hs IH Hx]; simpl; [constructor|].
  apply StronglySorted_app; [exact IH | repeat constructor |].
  intros a b Ha [<- | []]. apply in_rev in Ha.
  rewrite Forall_forall in Hx. now apply Hx.
Qed.

Lemma py_sort_ascending (l : list A) :
  StronglySorted ascending (py_sort key lt false l).
Proof. apply stable_sort_sorted. Qed.

Lemma py_sort_descending (l : list A) :
  StronglySorted descending (py_sort key lt true l).
Proof.
  unfold py_sort.
  apply (StronglySorted_rev ascending), stable_sort_sorted.
Qed.
End Sorted.
End SortFacts.

(** ** Numbers and keys *)

Section OrderFacts.

Lemma Qcltb_lt (x y : Qc) : Qcltb x y = true <-> (x < y)%Qc.
Proof.
  unfold Qcltb. rewrite Qclt_alt.
  destruct (x ?= y)%Qc; split; congruence.
Qed.

Lemma Qcltb_ge (x y : Qc) : Qcltb x y = false <-> (y <= x)%Qc.
Proof.
  rewrite <- not_true_iff_false, Qcltb_lt. split.
  - apply Qcnot_lt_le.
  - intros H. now apply Qcle_not_lt.
Qed.

Lemma Qcleb_le (x y : Qc) : Qcleb x y = true <-> (x <= y)%Qc.
Proof. unfold Qcleb. now rewrite negb_true_iff, Qcltb_ge. Qed.

Lemma Qc_eq_bool_iff (x y : Qc) : Qc_eq_bool x y = true <-> x = y.
Proof.
  split; [apply Qc_eq_bool_correct|]. intros ->.
  unfold Qc_eq_bool. destruct (Qc_eq_dec y y); congruence.
Qed.

Lemma Qc_eq_bool_refl (x : Qc) : Qc_eq_bool x x = true.
Proof. now apply Qc_eq_bool_iff. Qed.

Lemma Qc_eq_bool_neq (x y : Qc) : Qc_eq_bool x y = false <-> x <> y.
Proof. now rewrite <- not_true_iff_false, Qc_eq_bool_iff. Qed.

Lemma Qcltb_asym (a b : Qc) : Qcltb a b = true -> Qcltb b a = false.
Proof. rewrite Qcltb_lt, Qcltb_ge. apply Qclt_le_weak. Qed.

Lemma Qcltb_negtrans (a b c : Qc) :
  Qcltb a b = false -> Qcltb b c = false -> Qcltb a c = false.
Proof. rewrite !Qcltb_ge. intros H1 H2. now apply (Qcle_trans _ b). Qed.

Lemma tuple_lt_spec (p q : nat * Qc) :
  tuple_lt p q = true <->
  fst p < fst q \/ (fst p = fst q /\ (snd p < snd q)%Qc).
Proof.
  unfold tuple_lt. destruct (fst p =? fst q) eqn:E.
  - apply Nat.eqb_eq in E. rewrite Qcltb_lt. split; [tauto|].
    intros [H | [_ H]]; [lia | exact H].
  - apply Nat.eqb_neq in E. rewrite Nat.ltb_lt. split; [tauto|].
    intros [H | [H _]]; [exact H | contradiction].
Qed.

Lemma tuple_lt_false (p q : nat * Qc) :
  tuple_lt p q = false <->
  fst q < fst p \/ (fst p = fst q /\ (snd q <= snd p)%Qc).
Proof.
  unfold tuple_lt. destruct (fst p =? fst q) eqn:E.
  - apply Nat.eqb_eq in E. rewrite Qcltb_ge. split; [tauto|].
    intros [H | [_ H]]; [lia | exact H].
  - apply Nat.eqb_neq in E. rewrite Nat.ltb_ge. split; [lia|].
    intros [H | [H _]]; [lia | contradiction].
Qed.

Lemma tuple_lt_asym (a b : nat * Qc) :
  tuple_lt a b = true -> tuple_lt b a = false.
Proof.
  rewrite tuple_lt_spec, tuple_lt_false.
  intros [H | [H1 H2]]; [now left | right].
  split; [now symmetry | now apply Qclt_le_weak].
Qed.

Lemma tuple_lt_negtrans (a b c : nat * Qc) :
  tuple_lt a b = false -> tuple_lt b c = false -> tuple_lt a c = false.
Proof.
  rewrite !tuple_lt_false.
  intros [H1 | [H1 H1']] [H2 | [H2 H2']]; try (left; lia).
  right. split; [congruence | now apply (Qcle_trans _ (snd b))].
Qed.

Lemma Qcopp_le_cancel (x y : Qc) : (- x <= - y)%Qc -> (y <= x)%Qc.
Proof.
  intros H. apply Qcopp_le_compat in H. now rewrite !Qcopp_involutive in H.
Qed.

End OrderFacts.

(** ** Lists: subsequences and first occurrences *)

Section ListFacts.
Import LevelSpec.
Context {X : Type}.

Lemma subsequence_refl (l : list X) : subsequence l l.
Proof. induction l; constructor; assumption. Qed.

Lemma subsequence_trans (a b c : list X) :
  subsequence a b -> subsequence b c -> subsequence a c.
Proof.
  intros Hab Hbc. revert a Hab.
  induction Hbc as [|x b c Hbc IH|x b c Hbc IH]; intros a Hab.
  - exact Hab.
  - inversion Hab; subst; constructor; auto.
  - constructor. auto.
Qed.

Lemma subsequence_filter (P : X -> bool) (l : list X) :
  subsequence (filter P l) l.
Proof.
  induction l as [|x l IH]; simpl; [constructor|].
  destruct (P x); constructor; assumption.
Qed.

Lemma subsequence_filter_mono (P : X -> bool) (a b : list X) :
  subsequence a b -> subsequence (filter P a) (filter P b).
Proof.
  induction 1 as [|x a b H IH|x a b H IH]; simpl.
  - constructor.
  - destruct (P x); [constructor|]; assumption.
  - destruct (P x); [constructor|]; assumption.
Qed.

Lemma subsequence_In (a b : list X) (x : X) :
  subsequence a b -> In x a -> In x b.
Proof.
  induction 1 as [|y a b H IH|y a b H IH]; simpl; intuition.
Qed.

Lemma subsequence_Forall (P : X -> Prop) (a b : list X) :
  subsequence a b -> Forall P b -> Forall P a.
Proof.
  rewrite !Forall_forall. intros H Hb x Hx.
  apply Hb. now apply (subsequence_In a).
Qed.

Lemma subsequence_sorted (R : X -> X -> Prop) (a b : list X) :
  subsequence a b -> StronglySorted R b -> StronglySorted R a.
Proof.
  induction 1 as [|x a b H IH|x a b H IH]; intros Hb.
  - constructor.
  - inversion Hb; subst. constructor; [auto|].
    now apply (subsequence_Forall _ a b).
  - inversion Hb; subst. auto.
Qed.

Lemma StronglySorted_weaken (R S : X -> X -> Prop) (l : list X) :
  (forall a b, R a b -> S a b) -> StronglySorted R l -> StronglySorted S l.
Proof.
  intros HRS. induction 1 as [|x l Hl IH Hx]; constructor; [exact IH|].
  eapply Forall_impl; [|exact Hx]. intros b. apply HRS.
Qed.

Lemma subsequence_map {Y : Type} (f : X -> Y) (a b : list X) :
  subsequence a b -> subsequence (map f a) (map f b).
Proof. induction 1; simpl; constructor; assumption. Qed.

Lemma filter_and (P Q : X -> bool) (l : list X) :
  filter P (filter Q l) = filter (fun x => Q x && P x) l.
Proof.
  induction l as [|x l IH]; simpl; [reflexivity|].
  destruct (Q x); simpl; [destruct (P x)|]; now rewrite IH.
Qed.

Lemma filter_swap (P Q : X -> bool) (l : list X) :
  filter P (filter Q l) = filter Q (filter P l).
Proof.
  rewrite !filter_and. apply filter_ext. intros x. apply andb_comm.
Qed.

Lemma filter_none (P : X -> bool) (l : list X) :
  (forall x, In x l -> P x = false) -> filter P l = [].
Proof.
  induction l as [|x l IH]; intros H; simpl; [reflexivity|].
  rewrite (H x (or_introl eq_refl)). apply IH.
  intros y Hy. apply H. now right.
Qed.

Lemma filter_length_lt (P Q : X -> bool) (l : list X) :
  (forall x, In x l -> P x = true -> Q x = true) ->
  (exists x, In x l /\ P x = false /\ Q x = true) ->
  List.length (filter P l) < List.length (filter Q l).
Proof.
  induction l as [|y l IH]; intros Hpq (x & Hx & HP & HQ); [destruct Hx|].
  assert (Hle : List.length (filter P l) <= List.length (filter Q l)).
  { clear -Hpq. induction l as [|z l IHl]; simpl; [lia|].
    assert (Hl : forall x, In x (y :: l) -> P x = true -> Q x = true).
    { intros x [<-|Hx] Hp; apply Hpq; simpl; auto. }
    specialize (IHl Hl).
    destruct (P z) eqn:Pz.
    - rewrite (Hpq z (or_intror (or_introl eq_refl)) Pz). simpl. lia.
    - destruct (Q z); simpl; lia. }
  cbn [filter]. destruct Hx as [<- | Hx].
  - rewrite HP, HQ. simpl. lia.
  - assert (Hlt : List.length (filter P l) < List.length (filter Q l)).
    { apply IH; [intros z Hz; apply Hpq; now right | now exists x]. }
    destruct (P y) eqn:Py.
    + rewrite (Hpq y (or_introl eq_refl) Py). simpl. lia.
    + destruct (Q y); simpl; lia.
Qed.

Lemma filter_all (l : list X) : filter (fun _ => true) l = l.
Proof. induction l as [|x l IH]; simpl; congruence. Qed.

Variable key : X -> string.

Lemma first_occurrences_subsequence (l : list X) :
  subsequence (first_occurrences key l) l.
Proof.
  induction l as [|x l IH]; simpl; constructor.
  eapply subsequence_trans; [apply subsequence_filter | exact IH].
Qed.

Lemma first_occurrences_filter (P : X -> bool) (l : list X) :
  (forall x y, key x = key y -> P x = P y) ->
  filter P (first_occurrences key l) = first_occurrences key (filter P l).
Proof.
  intros HP. induction l as [|x l IH]; [reflexivity|].
  cbn [first_occurrences filter]. destruct (P x) eqn:Px.
  - cbn [first_occurrences]. now rewrite filter_swap, IH.
  - rewrite <- IH, filter_and. apply filter_ext_in. intros y _.
    destruct (String.eqb (key y) (key x)) eqn:E; [|reflexivity].
    apply String.eqb_eq in E. now rewrite (HP y x E), Px.
Qed.

Lemma first_occurrences_NoDup (l : list X) :
  NoDup (map key (first_occurrences key l)).
Proof.
  induction l as [|x l IH]; simpl; constructor.
  - rewrite in_map_iff. intros (y & Hy & Hin).
    apply filter_In in Hin. destruct Hin as [_ Hne].
    rewrite Hy, String.eqb_refl in Hne. discriminate.
  - clear -IH. induction (first_occurrences key l) as [|y r IHr]; [constructor|].
    simpl in *. apply NoDup_cons_iff in IH. destruct IH as [Hy Hr].
    destruct (negb (String.eqb (key y) (key x))); auto.
    simpl. constructor; auto.
    rewrite in_map_iff in *. intros (z & Hz & Hin). apply Hy.
    exists z. apply filter_In in Hin. tauto.
Qed.

End ListFacts.

(** ** Trimming *)

Section StripFacts.

Lemma rstrip_cons_nonspace (c : ascii) (r : string) :
  is_space c = false -> rstrip (String c r) = String c (rstrip r).
Proof.
  intros Hc. cbn [rstrip]. rewrite Hc. now destruct (rstrip r).
Qed.

Lemma rstrip_idem (s : string) : rstrip (rstrip s) = rstrip s.
Proof.
  induction s as [|c r IH]; [reflexivity|].
  cbn [rstrip]. destruct (rstrip r) as [|d r'] eqn:E.
  - destruct (is_space c) eqn:Hc; [reflexivity|].
    cbn [rstrip]. now rewrite Hc.
  - cbn [rstrip]. cbn [rstrip] in IH. now rewrite IH.
Qed.

Lemma lstrip_head (s : string) :
  match lstrip s with
  | EmptyString => True
  | String c _ => is_space c = false
  end.
Proof.
  induction s as [|c r IH]; simpl; [exact I|].
  destruct (is_space c) eqn:Hc; [exact IH | exact Hc].
Qed.

Lemma strip_idem (s : string) : strip (strip s) = strip s.
Proof.
  unfold strip. pose proof (lstrip_head s) as Hh.
  destruct (lstrip s) as [|c r]; [reflexivity|].
  rewrite (rstrip_cons_nonspace c r Hh). cbn [lstrip]. rewrite Hh.
  rewrite <- (rstrip_cons_nonspace c r Hh). apply rstrip_idem.
Qed.

Lemma text_key_strip (s : string) :
  LevelSpec.text_key (strip s) = LevelSpec.text_key s.
Proof. unfold LevelSpec.text_key. now rewrite strip_idem. Qed.

End StripFacts.

(** ** The processing order of the leveler *)

Section ProcessingOrder.
Import LevelSpec.

Lemma processing_order_perm (l : list FontInfo) :
  Permutation (processing_order l) l.
Proof. unfold processing_order. now rewrite !py_sort_perm. Qed.

Lemma processing_order_sorted (l : list FontInfo) :
  StronglySorted page_size_order (processing_order l).
Proof.
  unfold processing_order.
  eapply StronglySorted_weaken;
    [| apply (py_sort_ascending key_page_neg_size tuple_lt
                tuple_lt_asym tuple_lt_negtrans)].
  intros a b Hab. unfold ascending, key_page_neg_size in Hab.
  apply tuple_lt_false in Hab. cbn [fst snd] in Hab.
  unfold page_size_order.
  destruct Hab as [H | [Hp Hs]]; [now left | right].
  split; [now symmetry | now apply Qcopp_le_cancel].
Qed.

Lemma tie_page_size (p : nat) (s : Qc) (x y : FontInfo) :
  tie p s x = true -> tie p s y = true ->
  fi_page x = fi_page y /\ fi_size x = fi_size y.
Proof.
  unfold tie. rewrite !andb_true_iff, !Nat.eqb_eq, !Qc_eq_bool_iff.
  intros [-> ->] [-> ->]. now split.
Qed.

(** Neither sort reorders the candidates of one page and one size. *)
Lemma processing_order_stable (p : nat) (s : Qc) (l : list FontInfo) :
  filter (tie p s) (processing_order l) = filter (tie p s) l.
Proof.
  unfold processing_order. rewrite !filter_py_sort; [reflexivity| |].
  - intros x y Hx Hy. destruct (tie_page_size p s x y Hx Hy) as [Hp Hs].
    apply tuple_lt_false. right. unfold key_page_size. cbn [fst snd].
    split; [exact Hp|]. rewrite Hs. apply Qcle_refl.
  - intros x y Hx Hy. destruct (tie_page_size p s x y Hx Hy) as [Hp Hs].
    apply tuple_lt_false. right. unfold key_page_neg_size. cbn [fst snd].
    split; [exact Hp|]. rewrite Hs. apply Qcle_refl.
Qed.

End ProcessingOrder.

(** ** The loop that emits the headings *)

Section HeadingLoop.
Import LevelSpec.
Variable stl : Dict.

Lemma seen_mem_cons (k k' : string) (seen : list string) :
  seen_mem k (k' :: seen) = String.eqb k k' || seen_mem k seen.
Proof. reflexivity. Qed.

Lemma heading_key_of (x : FontInfo) :
  heading_key (heading_of stl x) = candidate_key x.
Proof. unfold heading_key, candidate_key. simpl. apply text_key_strip. Qed.

(** From any state, the loop appends the first occurrences of the
    candidates that have a level and whose key was not seen. *)
Lemma heading_loop (l : list FontInfo) :
  forall (hs : list Heading) (seen : list string),
    fst (fold_left (heading_step stl) l (hs, seen)) =
    (hs ++ map (heading_of stl)
             (first_occurrences candidate_key
                (filter (fun x => has_level stl x
                                  && negb (seen_mem (candidate_key x) seen))
                        l)))%list.
Proof.
  induction l as [|x r IH]; intros hs seen.
  - simpl. now rewrite app_nil_r.
  - cbn [fold_left filter].
    assert (Hstep : heading_step stl (hs, seen) x =
              if has_level stl x && negb (seen_mem (candidate_key x) seen)
              then ((hs ++ [heading_of stl x])%list, candidate_key x :: seen)
              else (hs, seen)).
    { unfold heading_step, has_level, heading_of, candidate_key, text_key.
      destruct x as [[[t s] b] p]. cbn [fi_size fi_text fi_page].
      destruct (dict_get stl s); [|reflexivity].
      now destruct (seen_mem (lower (strip t)) seen). }
    rewrite Hstep.
    destruct (has_level stl x && negb (seen_mem (candidate_key x) seen)) eqn:E.
    + rewrite IH. cbn [first_occurrences map]. rewrite <- app_assoc.
      cbn [app]. do 3 f_equal.
      rewrite first_occurrences_filter.
      * f_equal. rewrite filter_and. apply filter_ext. intros y.
        rewrite seen_mem_cons, negb_orb.
        destruct (has_level stl y);
          destruct (String.eqb (candidate_key y) (candidate_key x));
          destruct (seen_mem (candidate_key y) seen); reflexivity.
      * intros a b Hab. now rewrite Hab.
    + apply IH.
Qed.

Lemma seen_mem_nil (k : string) : seen_mem k [] = false.
Proof. reflexivity. Qed.

Lemma heading_loop_start (l : list FontInfo) :
  fst (fold_left (heading_step stl) l ([], [])) =
  map (heading_of stl)
      (first_occurrences candidate_key (filter (has_level stl) l)).
Proof.
  rewrite heading_loop. cbn [app]. do 2 f_equal.
  apply filter_ext. intros x. cbn [negb]. apply andb_true_r.
Qed.

End HeadingLoop.

Section Leveler.
Import LevelSpec.

Lemma determine_heading_levels_eq (l : list FontInfo) :
  determine_heading_levels l =
  (processing_order l,
   map (heading_of (size_to_level l))
       (first_occurrences candidate_key
          (filter (has_level (size_to_level l)) (processing_order l)))).
Proof.
  destruct l as [|x l]; [reflexivity|].
  unfold determine_heading_levels.
  rewrite <- heading_loop_start.
  fold (size_to_level_of (py_sort key_page_size tuple_lt true (x :: l))).
  fold (size_to_level (x :: l)). fold (processing_order (x :: l)).
  now destruct (fold_left _ _ _).
Qed.

End Leveler.

(** ** The size-to-level dictionary *)

Section SizeToLevel.
Import LevelSpec.

Lemma set_add_In (x s : Qc) (acc : list Qc) :
  In s (set_add x acc) <-> In s acc \/ s = x.
Proof.
  unfold set_add. destruct (existsb (Qc_eq_bool x) acc) eqn:E.
  - apply existsb_exists in E. destruct E as (y & Hy & Hxy).
    apply Qc_eq_bool_iff in Hxy. subst y. split; [tauto|].
    intros [H | ->]; assumption.
  - rewrite in_app_iff. simpl. intuition.
Qed.

Lemma set_add_NoDup (x : Qc) (acc : list Qc) :
  NoDup acc -> NoDup (set_add x acc).
Proof.
  intros Hacc. unfold set_add.
  destruct (existsb (Qc_eq_bool x) acc) eqn:E; [exact Hacc|].
  apply NoDup_rev in Hacc. apply (Permutation_NoDup (l := x :: acc)).
  - apply Permutation_cons_append.
  - constructor; [|now apply NoDup_rev in Hacc; rewrite rev_involutive in Hacc].
    intros Hin. rewrite <- not_true_iff_false in E. apply E.
    apply existsb_exists. exists x. split; [exact Hin | apply Qc_eq_bool_refl].
Qed.

Lemma size_set_acc (l : list FontInfo) :
  forall acc, NoDup acc ->
    let r := fold_left (fun s x => set_add (fi_size x) s) l acc in
    NoDup r /\ forall s, In s r <-> In s acc \/ In s (sizes l).
Proof.
  induction l as [|x l IH]; intros acc Hacc; cbn [fold_left sizes map].
  - split; [exact Hacc|]. intros s. simpl. tauto.
  - destruct (IH (set_add (fi_size x) acc) (set_add_NoDup _ _ Hacc))
      as [Hnd Hin].
    split; [exact Hnd|]. intros s. rewrite Hin, set_add_In.
    unfold sizes. simpl. intuition.
Qed.

Lemma size_set_NoDup (l : list FontInfo) : NoDup (size_set l).
Proof. apply (size_set_acc l []). constructor. Qed.

Lemma size_set_In (l : list FontInfo) (s : Qc) :
  In s (size_set l) <-> In s (sizes l).
Proof.
  destruct (size_set_acc l [] (NoDup_nil _)) as [_ Hin].
  unfold size_set. rewrite Hin. simpl. tauto.
Qed.

(** The sizes, largest first, as the call sorts them. *)
Lemma font_sizes_In (l : list FontInfo) (s : Qc) :
  In s (py_sort (fun s : Qc => s) Qcltb true (size_set l)) <-> In s (sizes l).
Proof.
  rewrite <- size_set_In. split; apply Permutation_in;
    [| symmetry]; apply py_sort_perm.
Qed.

Lemma font_sizes_NoDup (l : list FontInfo) :
  NoDup (py_sort (fun s : Qc => s) Qcltb true (size_set l)).
Proof.
  eapply Permutation_NoDup; [symmetry; apply py_sort_perm|].
  apply size_set_NoDup.
Qed.

Lemma font_sizes_sorted (l : list FontInfo) :
  StronglySorted (fun a b : Qc => (b <= a)%Qc)
                 (py_sort (fun s : Qc => s) Qcltb true (size_set l)).
Proof.
  eapply StronglySorted_weaken;
    [| apply (py_sort_descending (fun s : Qc => s) Qcltb
                Qcltb_asym Qcltb_negtrans)].
  intros a b. unfold descending. apply Qcltb_ge.
Qed.

(** In a list without repetition, sorted largest first, an element
    stands at the index that counts the elements above it. *)
Lemma sorted_index (fs : list Qc) :
  NoDup fs -> StronglySorted (fun a b : Qc => (b <= a)%Qc) fs ->
  forall i s, nth_error fs i = Some s ->
    List.length (filter (fun t => Qcltb s t) fs) = i.
Proof.
  induction fs as [|a r IH]; intros Hnd Hs i s Hi.
  - destruct i; discriminate.
  - apply NoDup_cons_iff in Hnd. destruct Hnd as [Ha Hr].
    apply StronglySorted_inv in Hs. destruct Hs as [Hs Hall].
    rewrite Forall_forall in Hall. cbn [filter].
    destruct i as [|j]; cbn [nth_error] in Hi.
    + injection Hi as <-.
      replace (Qcltb a a) with false
        by (symmetry; apply Qcltb_ge, Qcle_refl).
      rewrite filter_none; [reflexivity|].
      intros t Ht. apply Qcltb_ge. now apply Hall.
    + assert (Hin : In s r) by (eapply nth_error_In; eassumption).
      assert (Hlt : Qcltb s a = true).
      { apply Qcltb_lt. destruct (Qcle_lt_or_eq _ _ (Hall s Hin)) as [H | H];
          [exact H | subst; contradiction]. }
      rewrite Hlt. cbn [List.length]. f_equal. now apply IH.
Qed.

(** Two lists without repetition, sorted largest first, that hold the same
    sizes are equal. *)
Lemma sorted_distinct_unique (l1 : list Qc) :
  forall l2,
    NoDup l1 -> NoDup l2 ->
    StronglySorted (fun a b : Qc => (b <= a)%Qc) l1 ->
    StronglySorted (fun a b : Qc => (b <= a)%Qc) l2 ->
    (forall s, In s l1 <-> In s l2) ->
    l1 = l2.
Proof.
  induction l1 as [|a r1 IH]; intros l2 Hn1 Hn2 Hs1 Hs2 Hin.
  - destruct l2 as [|b r2]; [reflexivity|].
    destruct (proj2 (Hin b) (or_introl eq_refl)).
  - destruct l2 as [|b r2]; [destruct (proj1 (Hin a) (or_introl eq_refl))|].
    apply NoDup_cons_iff in Hn1, Hn2.
    destruct Hn1 as [Ha Hn1], Hn2 as [Hb Hn2].
    apply StronglySorted_inv in Hs1, Hs2.
    destruct Hs1 as [Hs1 Hall1], Hs2 as [Hs2 Hall2].
    rewrite Forall_forall in Hall1, Hall2.
    assert (Hab : a = b).
    { apply Qcle_antisym.
      - destruct (proj1 (Hin a) (or_introl eq_refl)) as [<- | Hr];
          [apply Qcle_refl | now apply Hall2].
      - destruct (proj2 (Hin b) (or_introl eq_refl)) as [<- | Hr];
          [apply Qcle_refl | now apply Hall1]. }
    subst b. f_equal. apply IH; try assumption.
    intros s. split; intros Hs.
    + destruct (proj1 (Hin s) (or_intror Hs)) as [<- | Hr];
        [contradiction | exact Hr].
    + destruct (proj2 (Hin s) (or_intror Hs)) as [<- | Hr];
        [contradiction | exact Hr].
Qed.

(** The sorted list of sizes does not depend on the order in which the
    set of sizes is iterated. *)
Lemma set_order_irrelevant (sizes_set sizes_set' : list Qc) :
  NoDup sizes_set -> Permutation sizes_set sizes_set' ->
  py_sort (fun s : Qc => s) Qcltb true sizes_set'
  = py_sort (fun s : Qc => s) Qcltb true sizes_set.
Proof.
  intros Hnd Hp.
  assert (Hsorted : forall l,
             StronglySorted (fun a b : Qc => (b <= a)%Qc)
                            (py_sort (fun s : Qc => s) Qcltb true l)).
  { intros l. eapply StronglySorted_weaken;
      [| apply (py_sort_descending (fun s : Qc => s) Qcltb
                  Qcltb_asym Qcltb_negtrans)].
    intros a b. apply Qcltb_ge. }
  apply sorted_distinct_unique; try apply Hsorted.
  - eapply Permutation_NoDup; [symmetry; apply py_sort_perm|].
    eapply Permutation_NoDup; [exact Hp | exact Hnd].
  - eapply Permutation_NoDup; [symmetry; apply py_sort_perm | exact Hnd].
  - assert (Hmem : forall l s,
               In s (py_sort (fun s : Qc => s) Qcltb true l) <-> In s l).
    { intros l s.
      pose proof (py_sort_perm (fun s : Qc => s) Qcltb true l) as Hl.
      split; apply Permutation_in; [exact Hl | symmetry; exact Hl]. }
    intros s. rewrite !Hmem.
    split; apply Permutation_in; [symmetry; exact Hp | exact Hp].
Qed.

Lemma rank_index (l : list FontInfo) (fs : list Qc) :
  NoDup fs -> (forall s, In s fs <-> In s (sizes l)) ->
  forall s, rank l s = List.length (filter (fun t => Qcltb s t) fs).
Proof.
  intros Hnd Hin s. unfold rank. apply Permutation_length.
  apply NoDup_Permutation.
  - apply NoDup_filter, NoDup_nodup.
  - now apply NoDup_filter.
  - intros t. rewrite !filter_In. unfold distinct_sizes.
    now rewrite nodup_In, Hin.
Qed.

End SizeToLevel.

Section AssignLevels.
Import LevelSpec.

Ltac decide_key :=
  match goal with
  | |- context [Qc_eq_bool ?x ?x] => rewrite (Qc_eq_bool_refl x)
  | H : ?x <> ?y |- context [Qc_eq_bool ?x ?y] =>
      rewrite (proj2 (Qc_eq_bool_neq x y) H)
  | H : ?y <> ?x |- context [Qc_eq_bool ?x ?y] =>
      rewrite (proj2 (Qc_eq_bool_neq x y) (not_eq_sym H))
  end.

Ltac decide_keys := cbn; repeat (decide_key; cbn).

(** The dictionary built from the three largest sizes. *)
Lemma assign_levels_shape (fs : list Qc) :
  NoDup fs ->
  assign_levels fs =
    map (fun e : nat * Qc => (snd e, level_at (fst e)))
        (enumerate (firstn 3 fs)).
Proof.
  intros Hnd. unfold assign_levels, enumerate. cbn [heading_levels List.length].
  destruct fs as [|a [|b [|c rest]]]; try reflexivity.
  - apply NoDup_cons_iff in Hnd. destruct Hnd as [Hab _].
    assert (b <> a) by (intros ->; apply Hab; now left).
    decide_keys; reflexivity.
  - apply NoDup_cons_iff in Hnd. destruct Hnd as [Ha Hnd].
    apply NoDup_cons_iff in Hnd. destruct Hnd as [Hb _].
    assert (b <> a) by (intros ->; apply Ha; now left).
    assert (c <> a) by (intros ->; apply Ha; right; now left).
    assert (c <> b) by (intros ->; apply Hb; now left).
    decide_keys; reflexivity.
Qed.

Lemma assign_levels_nth (fs : list Qc) (i : nat) (s : Qc) :
  NoDup fs -> nth_error fs i = Some s ->
  dict_get (assign_levels fs) s = level_of_rank i.
Proof.
  intros Hnd Hi. rewrite (assign_levels_shape fs Hnd).
  assert (Hin : forall j t, j <> i -> nth_error fs j = Some t -> s <> t).
  { intros j t Hj Ht ->. apply Hj.
    now apply (proj1 (NoDup_nth_error fs) Hnd j i);
      [apply nth_error_Some; congruence | congruence]. }
  destruct fs as [|a [|b [|c rest]]];
    destruct i as [|[|[|i]]]; cbn in Hi; try discriminate;
    try (injection Hi as <-); decide_keys; try reflexivity.
  - pose proof (Hin 0 a ltac:(lia) eq_refl). decide_keys; reflexivity.
  - pose proof (Hin 0 a ltac:(lia) eq_refl). decide_keys; reflexivity.
  - pose proof (Hin 0 a ltac:(lia) eq_refl).
    pose proof (Hin 1 b ltac:(lia) eq_refl). decide_keys; reflexivity.
  - pose proof (Hin 0 a ltac:(lia) eq_refl).
    pose proof (Hin 1 b ltac:(lia) eq_refl).
    pose proof (Hin 2 c ltac:(lia) eq_refl). decide_keys; reflexivity.
Qed.

Lemma assign_levels_notin (fs : list Qc) (s : Qc) :
  NoDup fs -> ~ In s fs -> dict_get (assign_levels fs) s = None.
Proof.
  intros Hnd Hin. rewrite (assign_levels_shape fs Hnd).
  destruct fs as [|a [|b [|c rest]]]; cbn; try reflexivity.
  - assert (s <> a) by (intros ->; apply Hin; now left). decide_keys; reflexivity.
  - assert (s <> a) by (intros ->; apply Hin; now left).
    assert (s <> b) by (intros ->; apply Hin; right; now left).
    decide_keys; reflexivity.
  - assert (s <> a) by (intros ->; apply Hin; now left).
    assert (s <> b) by (intros ->; apply Hin; right; now left).
    assert (s <> c) by (intros ->; apply Hin; right; right; now left).
    decide_keys; reflexivity.
Qed.

End AssignLevels.

Section LevelsByRank.
Import LevelSpec.

Lemma sizes_perm (l l' : list FontInfo) :
  Permutation l l' -> forall s, In s (sizes l) <-> In s (sizes l').
Proof.
  intros Hp s. unfold sizes.
  split; apply Permutation_in; [| symmetry]; now apply Permutation_map.
Qed.

Lemma size_to_level_In (l : list FontInfo) (s : Qc) :
  In s (py_sort (fun s : Qc => s) Qcltb true
          (size_set (py_sort key_page_size tuple_lt true l)))
  <-> In s (sizes l).
Proof. rewrite font_sizes_In. apply sizes_perm, py_sort_perm. Qed.

Lemma size_to_level_rank (l : list FontInfo) (s : Qc) :
  In s (sizes l) ->
  dict_get (size_to_level l) s = level_of_rank (rank l s).
Proof.
  intros Hs. unfold size_to_level, size_to_level_of.
  set (fs := py_sort (fun s : Qc => s) Qcltb true
               (size_set (py_sort key_page_size tuple_lt true l))).
  assert (Hnd : NoDup fs) by apply font_sizes_NoDup.
  assert (Hin : forall t, In t fs <-> In t (sizes l))
    by apply size_to_level_In.
  destruct (In_nth_error fs s (proj2 (Hin s) Hs)) as [i Hi].
  rewrite (assign_levels_nth fs i s Hnd Hi). f_equal.
  rewrite (rank_index l fs Hnd Hin). symmetry.
  apply sorted_index; [exact Hnd | apply font_sizes_sorted | exact Hi].
Qed.

Lemma size_to_level_none (l : list FontInfo) (s : Qc) :
  ~ In s (sizes l) -> dict_get (size_to_level l) s = None.
Proof.
  intros Hs. unfold size_to_level, size_to_level_of.
  apply assign_levels_notin; [apply font_sizes_NoDup|].
  now rewrite size_to_level_In.
Qed.

Lemma size_to_level_some (l : list FontInfo) (s : Qc) (lv : Level) :
  dict_get (size_to_level l) s = Some lv ->
  In s (sizes l) /\ level_of_rank (rank l s) = Some lv.
Proof.
  intros H. destruct (in_dec Qc_eq_dec s (sizes l)) as [Hin | Hout].
  - split; [exact Hin|]. now rewrite <- size_to_level_rank.
  - rewrite (size_to_level_none l s Hout) in H. discriminate.
Qed.

Lemma level_of_rank_number (r : nat) (lv : Level) :
  level_of_rank r = Some lv -> level_number lv = S r.
Proof.
  destruct r as [|[|[|r]]]; simpl; intros H; inversion H; reflexivity.
Qed.

Lemma level_of_rank_some (r : nat) :
  (exists lv, level_of_rank r = Some lv) <-> r < 3.
Proof.
  destruct r as [|[|[|r]]]; simpl; split; intros H; try lia; eauto.
  destruct H as [lv H]. discriminate.
Qed.

Lemma rank_lt (l : list FontInfo) (s t : Qc) :
  In s (sizes l) -> (t < s)%Qc -> rank l s < rank l t.
Proof.
  intros Hs Hts. unfold rank. apply filter_length_lt.
  - intros x _ Hx. apply Qcltb_lt in Hx. apply Qcltb_lt.
    now apply (Qclt_trans _ s).
  - exists s. split; [unfold distinct_sizes; now apply nodup_In|].
    split; [apply Qcltb_ge, Qcle_refl | now apply Qcltb_lt].
Qed.

Lemma rank_bound (l : list FontInfo) (s : Qc) :
  In s (sizes l) -> rank l s < List.length (distinct_sizes l).
Proof.
  intros Hs. unfold rank.
  rewrite <- (filter_all (distinct_sizes l)) at 2.
  apply filter_length_lt; [reflexivity|].
  exists s. split; [unfold distinct_sizes; now apply nodup_In|].
  split; [apply Qcltb_ge, Qcle_refl | reflexivity].
Qed.

(** Every emitted record comes from a candidate of the input. *)
Lemma heading_source (l : list FontInfo) (h : Heading) :
  In h (snd (determine_heading_levels l)) ->
  exists x, In x l /\ has_level (size_to_level l) x = true
            /\ h = heading_of (size_to_level l) x.
Proof.
  rewrite determine_heading_levels_eq. cbn [snd].
  rewrite in_map_iff. intros (x & <- & Hx). exists x.
  apply (subsequence_In _ _ _ (first_occurrences_subsequence _ _)) in Hx.
  apply filter_In in Hx. destruct Hx as [Hx Hlv].
  split; [|split; [exact Hlv | reflexivity]].
  eapply Permutation_in; [apply processing_order_perm | exact Hx].
Qed.

Lemma in_sizes (l : list FontInfo) (x : FontInfo) :
  In x l -> In (fi_size x) (sizes l).
Proof. apply in_map. Qed.

End LevelsByRank.

Section OutputOrder.
Import LevelSpec.

Lemma StronglySorted_map_in {X Y : Type} (R : X -> X -> Prop)
    (S : Y -> Y -> Prop) (f : X -> Y) (l : list X) :
  (forall a b, In a l -> In b l -> R a b -> S (f a) (f b)) ->
  StronglySorted R l -> StronglySorted S (map f l).
Proof.
  intros HRS Hl. induction Hl as [|x l Hl IH Hx]; simpl; constructor.
  - apply IH. intros a b Ha Hb. apply HRS; now right.
  - rewrite Forall_forall in *. intros y Hy.
    apply in_map_iff in Hy. destruct Hy as (b & <- & Hb).
    apply HRS; [now left | now right | now apply Hx].
Qed.

Lemma has_level_some (stl : Dict) (x : FontInfo) :
  has_level stl x = true ->
  dict_get stl (fi_size x) = Some (level (heading_of stl x)).
Proof.
  unfold has_level, heading_of. cbn [level].
  now destruct (dict_get stl (fi_size x)).
Qed.

(** Among candidates that have a level, page-then-size order becomes
    page-then-level order. *)
Lemma heading_order_of (l : list FontInfo) (a b : FontInfo) :
  has_level (size_to_level l) a = true ->
  has_level (size_to_level l) b = true ->
  page_size_order a b ->
  heading_order (heading_of (size_to_level l) a)
                (heading_of (size_to_level l) b).
Proof.
  intros Ha Hb [Hp | [Hp Hs]]; [now left | right].
  split; [exact Hp|].
  apply has_level_some in Ha, Hb.
  destruct (size_to_level_some _ _ _ Ha) as [Hina Hra].
  destruct (size_to_level_some _ _ _ Hb) as [Hinb Hrb].
  rewrite (level_of_rank_number _ _ Hra), (level_of_rank_number _ _ Hrb).
  destruct (Qcle_lt_or_eq _ _ Hs) as [Hlt | Heq].
  - pose proof (rank_lt l _ _ Hina Hlt). lia.
  - rewrite Heq. lia.
Qed.

(** Two lists in page-then-size order whose ties stand in the same order
    are equal. *)
Lemma stable_order_unique (l1 : list FontInfo) :
  forall l2,
    StronglySorted page_size_order l1 -> StronglySorted page_size_order l2 ->
    (forall p s, filter (tie p s) l1 = filter (tie p s) l2) ->
    l1 = l2.
Proof.
  assert (Hself : forall x, tie (fi_page x) (fi_size x) x = true).
  { intros x. unfold tie. now rewrite Nat.eqb_refl, Qc_eq_bool_refl. }
  assert (Hsym : forall x y, tie (fi_page x) (fi_size x) y = true ->
                             tie (fi_page y) (fi_size y) x = true).
  { intros x y. unfold tie.
    rewrite !andb_true_iff, !Nat.eqb_eq, !Qc_eq_bool_iff. intuition. }
  assert (Hanti : forall x y, page_size_order x y -> page_size_order y x ->
                              tie (fi_page x) (fi_size x) y = true).
  { intros x y [Hxy | [Hp Hs]] [Hyx | [Hp' Hs']]; try lia.
    unfold tie. rewrite andb_true_iff, Nat.eqb_eq, Qc_eq_bool_iff.
    split; [now symmetry | now apply Qcle_antisym]. }
  induction l1 as [|x r1 IH]; intros l2 Hs1 Hs2 Hf.
  - destruct l2 as [|y r2]; [reflexivity|].
    specialize (Hf (fi_page y) (fi_size y)). cbn [filter] in Hf.
    rewrite Hself in Hf. discriminate.
  - destruct l2 as [|y r2].
    + specialize (Hf (fi_page x) (fi_size x)). cbn [filter] in Hf.
      rewrite Hself in Hf. discriminate.
    + apply StronglySorted_inv in Hs1, Hs2.
      destruct Hs1 as [Hs1 Hx], Hs2 as [Hs2 Hy].
      rewrite Forall_forall in Hx, Hy.
      assert (Hxy : x = y).
      { pose proof (Hf (fi_page x) (fi_size x)) as Fx.
        pose proof (Hf (fi_page y) (fi_size y)) as Fy.
        cbn [filter] in Fx, Fy. rewrite Hself in Fx, Fy.
        destruct (tie (fi_page x) (fi_size x) y) eqn:Exy.
        - now injection Fx.
        - destruct (tie (fi_page y) (fi_size y) x) eqn:Eyx.
          + apply Hsym in Eyx. congruence.
          + assert (In x r2).
            { eapply (proj1 (filter_In _ x r2)). rewrite <- Fx. now left. }
            assert (In y r1).
            { eapply (proj1 (filter_In _ y r1)). rewrite Fy. now left. }
            rewrite (Hanti x y) in Exy; [discriminate | now apply Hx | now apply Hy]. }
      subst y. f_equal. apply IH; [exact Hs1 | exact Hs2 |].
      intros p s. specialize (Hf p s). cbn [filter] in Hf.
      destruct (tie p s x); [now injection Hf | exact Hf].
Qed.

End OutputOrder.

(** * The heading leveler *)

Section LevelerClaims.
Import LevelSpec.

(** C3.  The headings are emitted in page-ascending, then
    font-size-descending order: the records are those of a selection of
    the candidates, taken in the order of the sorted list, which is
    page-ascending and within a page from the larger to the smaller font;
    hence the records are in page order and, within a page, from the
    senior level to the junior.  For the two-page scenario the outline is
    Chapter 1 (H1, page 1), Section 1.1 (H2, page 2), Section 1.2 (H2,
    page 2). *)
Theorem headings_in_page_then_size_order (font_info : list FontInfo) :
  (exists sel,
      subsequence sel (processing_order font_info)
      /\ StronglySorted page_size_order sel
      /\ snd (determine_heading_levels font_info)
         = map (heading_of (size_to_level font_info)) sel)
  /\ StronglySorted heading_order (snd (determine_heading_levels font_info))
  /\ snd (determine_heading_levels Scenario.two_pages)
     = Scenario.two_pages_outline.
Proof.
  rewrite determine_heading_levels_eq. cbn [snd].
  set (stl := size_to_level font_info).
  set (sel := first_occurrences candidate_key
                (filter (has_level stl) (processing_order font_info))).
  assert (Hsub : subsequence sel (filter (has_level stl)
                                    (processing_order font_info)))
    by apply first_occurrences_subsequence.
  assert (Hsorted : StronglySorted page_size_order sel).
  { apply (subsequence_sorted _ _ _ Hsub).
    apply (subsequence_sorted _ _ _ (subsequence_filter _ _)).
    apply processing_order_sorted. }
  split; [|split].
  - exists sel. split; [|split; [exact Hsorted | reflexivity]].
    eapply subsequence_trans; [exact Hsub | apply subsequence_filter].
  - apply (StronglySorted_map_in page_size_order); [|exact Hsorted].
    intros a b Ha Hb. apply heading_order_of.
    + apply (subsequence_In _ _ _ Hsub) in Ha. now apply filter_In in Ha.
    + apply (subsequence_In _ _ _ Hsub) in Hb. now apply filter_In in Hb.
  - reflexivity.
Qed.

(** C10.  Candidates that tie on page and font size are never reordered:
    the sorted list holds them in their input order, and so does the
    selection the headings are made from. *)
Theorem ties_keep_input_order (font_info : list FontInfo) :
  (forall p s,
      filter (tie p s) (processing_order font_info)
      = filter (tie p s) font_info)
  /\ exists sel,
      snd (determine_heading_levels font_info)
      = map (heading_of (size_to_level font_info)) sel
      /\ forall p s,
          subsequence (filter (tie p s) sel) (filter (tie p s) font_info).
Proof.
  split; [intros p s; apply processing_order_stable|].
  rewrite determine_heading_levels_eq. cbn [snd].
  eexists. split; [reflexivity|]. intros p s.
  rewrite <- (processing_order_stable p s font_info).
  apply subsequence_filter_mono.
  eapply subsequence_trans;
    [apply first_occurrences_subsequence | apply subsequence_filter].
Qed.

(** C5.  The lowercased trimmed texts of the headings are pairwise
    distinct: of the candidates that have a level, taken in processing
    order, only the first occurrence of every lowercased trimmed text is
    kept, whatever the page and the level of the later ones. *)
Theorem headings_deduplicated (font_info : list FontInfo) :
  NoDup (map heading_key (snd (determine_heading_levels font_info)))
  /\ snd (determine_heading_levels font_info)
     = map (heading_of (size_to_level font_info))
         (first_occurrences candidate_key
            (filter (has_level (size_to_level font_info))
                    (processing_order font_info)))
  /\ snd (determine_heading_levels Scenario.repeated)
     = [{| level := H1; text := "Summary"; page := 1 |}].
Proof.
  rewrite determine_heading_levels_eq. cbn [snd].
  split; [|split; reflexivity].
  rewrite map_map.
  rewrite (map_ext _ candidate_key)
    by (intros x; apply heading_key_of).
  apply first_occurrences_NoDup.
Qed.

(** C9.  The call sorts the caller's list in place: a non-empty list is
    left as a permutation of itself in page-ascending, then
    font-size-descending order, and so keeps its original order only if
    it was in that order already. *)
Theorem caller_list_sorted_in_place (font_info : list FontInfo)
    (Hne : font_info <> []) :
  fst (determine_heading_levels font_info) = processing_order font_info
  /\ Permutation (fst (determine_heading_levels font_info)) font_info
  /\ StronglySorted page_size_order (fst (determine_heading_levels font_info))
  /\ (fst (determine_heading_levels font_info) = font_info
      <-> StronglySorted page_size_order font_info).
Proof.
  rewrite determine_heading_levels_eq. cbn [fst].
  split; [reflexivity|].
  split; [apply processing_order_perm|].
  split; [apply processing_order_sorted|].
  split.
  - intros <-. apply processing_order_sorted.
  - intros Hs. apply stable_order_unique;
      [apply processing_order_sorted | exact Hs |].
    intros p s. apply processing_order_stable.
Qed.

Lemma caller_list_sorted_in_place_witness :
  Scenario.unordered <> []
  /\ fst (determine_heading_levels Scenario.unordered)
       = processing_order Scenario.unordered
  /\ Permutation (fst (determine_heading_levels Scenario.unordered))
                 Scenario.unordered
  /\ StronglySorted page_size_order
       (fst (determine_heading_levels Scenario.unordered))
  /\ (fst (determine_heading_levels Scenario.unordered) = Scenario.unordered
      <-> StronglySorted page_size_order Scenario.unordered).
Proof.
  split; [discriminate|].
  apply (caller_list_sorted_in_place Scenario.unordered). discriminate.
Defined.

Lemma first_occurrences_covers {X : Type} (key : X -> string)
    (l : list X) (x : X) :
  In x l ->
  exists y, In y (first_occurrences key l) /\ key y = key x.
Proof.
induction l as [|a l IH]; intros Hx; [destruct Hx|].
cbn [first_occurrences]. destruct Hx as [-> | Hx].
- exists x. split; [now left | reflexivity].
- destruct (IH Hx) as (y & Hy & Hkey).
  destruct (String.eqb (key y) (key a)) eqn:E.
  + apply String.eqb_eq in E. exists a. split; [now left | congruence].
  + exists y. split; [right | exact Hkey].
    apply filter_In. split; [exact Hy | now rewrite E].
Qed.

Lemma has_level_rank (font_info : list FontInfo) (x : FontInfo) :
  In x font_info ->
  has_level (size_to_level font_info) x = in_top_three font_info x.
Proof.
intros Hx. unfold has_level, in_top_three.
rewrite (size_to_level_rank font_info _ (in_sizes _ _ Hx)).
destruct (level_of_rank (rank font_info (fi_size x))) as [lv|] eqn:E.
- symmetry. apply Nat.ltb_lt. apply level_of_rank_some. eauto.
- symmetry. apply Nat.ltb_ge.
  destruct (Nat.lt_ge_cases (rank font_info (fi_size x)) 3) as [Hlt | Hge];
    [|exact Hge].
  apply level_of_rank_some in Hlt. destruct Hlt as [lv Hlv]. congruence.
Qed.

Lemma heading_of_rank (font_info : list FontInfo) (x : FontInfo) :
  In x font_info ->
  heading_of (size_to_level font_info) x = ranked_heading font_info x.
Proof.
intros Hx. unfold heading_of, ranked_heading.
now rewrite (size_to_level_rank font_info _ (in_sizes _ _ Hx)).
Qed.

(** The output, candidate by candidate: the candidates whose size ranks in
    the first three, in processing order, first occurrences only, each
    with the level of its rank. *)
Lemma headings_by_rank (font_info : list FontInfo) :
  snd (determine_heading_levels font_info)
  = map (ranked_heading font_info)
        (first_occurrences candidate_key
           (filter (in_top_three font_info) (processing_order font_info))).
Proof.
assert (Hin : forall x, In x (processing_order font_info) -> In x font_info).
{ intros x. apply Permutation_in, processing_order_perm. }
rewrite determine_heading_levels_eq. cbn [snd].
rewrite (filter_ext_in (has_level (size_to_level font_info))
           (in_top_three font_info)).
- apply map_ext_in. intros x Hx. apply heading_of_rank, Hin.
  apply (subsequence_In _ _ _ (first_occurrences_subsequence _ _)) in Hx.
  now apply filter_In in Hx.
- intros x Hx. apply has_level_rank, Hin, Hx.
Qed.

(** C4.  The size-to-level mapping is document-global and by descending
    rank over the distinct sizes: a size of the input maps to the level of
    its rank (largest to H1, second to H2, third to H3, none from the
    fourth on) and no other size maps.  The output is made of the
    candidates whose size ranks in the first three, each with the level of
    its rank: it is the list of their records, in processing order, first
    occurrence of every text only; so for every such candidate a candidate
    with its text and a size in the first three is emitted with the level
    of its rank, and the candidate itself when no other shares its text.
    A candidate whose size ranks fourth or lower leaves the loop state
    untouched, and every record comes from a candidate whose size ranks in
    the first three.  Hence a larger mapped size has the more senior
    level, at most three distinct levels appear, no level number exceeds
    the number of distinct sizes, and the empty input gives the empty
    output. *)
Theorem levels_by_global_size_rank (font_info : list FontInfo) :
  (forall s, In s (sizes font_info) ->
     dict_get (size_to_level font_info) s
     = level_of_rank (rank font_info s))
  /\ (forall s, ~ In s (sizes font_info) ->
       dict_get (size_to_level font_info) s = None)
  /\ snd (determine_heading_levels font_info)
     = map (ranked_heading font_info)
           (first_occurrences candidate_key
              (filter (in_top_three font_info)
                      (processing_order font_info)))
  /\ (forall x, In x font_info -> rank font_info (fi_size x) < 3 ->
       exists y,
         In y font_info
         /\ candidate_key y = candidate_key x
         /\ rank font_info (fi_size y) < 3
         /\ level_of_rank (rank font_info (fi_size y))
            = Some (level (ranked_heading font_info y))
         /\ In (ranked_heading font_info y)
               (snd (determine_heading_levels font_info)))
  /\ (forall x, In x font_info -> rank font_info (fi_size x) < 3 ->
       (forall y, In y font_info ->
                  candidate_key y = candidate_key x -> y = x) ->
       In (ranked_heading font_info x)
          (snd (determine_heading_levels font_info)))
  /\ (forall x st, In x font_info -> 3 <= rank font_info (fi_size x) ->
       heading_step (size_to_level font_info) st x = st)
  /\ (forall h, In h (snd (determine_heading_levels font_info)) ->
       exists x, In x font_info
                 /\ rank font_info (fi_size x) < 3
                 /\ level_of_rank (rank font_info (fi_size x))
                    = Some (level h)
                 /\ text h = strip (fi_text x)
                 /\ page h = fi_page x)
  /\ (forall s1 s2 lv1 lv2,
       dict_get (size_to_level font_info) s1 = Some lv1 ->
       dict_get (size_to_level font_info) s2 = Some lv2 ->
       (s2 < s1)%Qc -> level_number lv1 < level_number lv2)
  /\ List.length
       (nodup Level_eq_dec
          (map level (snd (determine_heading_levels font_info)))) <= 3
  /\ (forall h, In h (snd (determine_heading_levels font_info)) ->
       level_number (level h) <= List.length (distinct_sizes font_info))
  /\ determine_heading_levels [] = ([], []).
Proof.
  assert (Hsrc : forall h,
             In h (snd (determine_heading_levels font_info)) ->
             exists x, In x font_info
                       /\ level_of_rank (rank font_info (fi_size x))
                          = Some (level h)
                       /\ text h = strip (fi_text x)
                       /\ page h = fi_page x).
  { intros h Hh. destruct (heading_source _ _ Hh) as (x & Hx & Hlv & ->).
    exists x. split; [exact Hx|]. split; [|split; reflexivity].
    apply has_level_some in Hlv. now apply size_to_level_some in Hlv. }
  assert (Hemit : forall x, In x font_info ->
             rank font_info (fi_size x) < 3 ->
             exists y,
               In y font_info
               /\ candidate_key y = candidate_key x
               /\ rank font_info (fi_size y) < 3
               /\ level_of_rank (rank font_info (fi_size y))
                  = Some (level (ranked_heading font_info y))
               /\ In (ranked_heading font_info y)
                     (snd (determine_heading_levels font_info))).
  { intros x Hx Hr.
    assert (Hcand : In x (filter (in_top_three font_info)
                                 (processing_order font_info))).
    { apply filter_In. split.
      - eapply Permutation_in;
          [symmetry; apply processing_order_perm | exact Hx].
      - unfold in_top_three. now apply Nat.ltb_lt. }
    destruct (first_occurrences_covers candidate_key _ x Hcand)
      as (y & Hy & Hkey).
    pose proof Hy as Hy'.
    apply (subsequence_In _ _ _ (first_occurrences_subsequence _ _)) in Hy'.
    apply filter_In in Hy'. destruct Hy' as [Hyin Hyr].
    unfold in_top_three in Hyr. apply Nat.ltb_lt in Hyr.
    exists y. split.
    { eapply Permutation_in; [apply processing_order_perm | exact Hyin]. }
    split; [exact Hkey|]. split; [exact Hyr|]. split.
    - cbn [ranked_heading level].
      destruct (proj2 (level_of_rank_some _) Hyr) as [lv Hlv].
      now rewrite Hlv.
    - rewrite headings_by_rank. now apply in_map. }
  split; [intros s Hs; now apply size_to_level_rank|].
  split; [intros s Hs; now apply size_to_level_none|].
  split; [apply headings_by_rank|].
  split; [exact Hemit|].
  split.
  { intros x Hx Hr Huniq.
    destruct (Hemit x Hx Hr) as (y & Hy & Hkey & _ & _ & Hout).
    now rewrite <- (Huniq y Hy Hkey). }
  repeat split.
  - intros x st Hx Hr. unfold heading_step.
    destruct st as [hs seen], x as [[[t s] b] p]. cbn [fi_size] in Hr.
    rewrite (size_to_level_rank font_info s (in_sizes _ _ Hx)).
    destruct (level_of_rank (rank font_info s)) as [lv|] eqn:E;
      [|reflexivity].
    assert (rank font_info s < 3) by (apply level_of_rank_some; eauto).
    lia.
  - intros h Hh. destruct (Hsrc h Hh) as (x & Hx & Hlv & Ht & Hp).
    exists x. repeat split; try assumption.
    apply level_of_rank_some. eauto.
  - intros s1 s2 lv1 lv2 Hs1 Hs2 Hlt.
    apply size_to_level_some in Hs1, Hs2.
    destruct Hs1 as [Hin1 Hr1], Hs2 as [Hin2 Hr2].
    rewrite (level_of_rank_number _ _ Hr1), (level_of_rank_number _ _ Hr2).
    pose proof (rank_lt font_info s1 s2 Hin1 Hlt). lia.
  - change 3 with (List.length heading_levels).
    apply NoDup_incl_length; [apply NoDup_nodup|].
    intros lv _. destruct lv; simpl; tauto.
  - intros h Hh. destruct (Hsrc h Hh) as (x & Hx & Hlv & _).
    rewrite (level_of_rank_number _ _ Hlv).
    apply rank_bound. now apply in_sizes.
Qed.

End LevelerClaims.

(** * The title detector *)

Section MaxFacts.





End MaxFacts.

Section TitleLoops.
Variable self : PDFOutlineExtractor.












End TitleLoops.

Section TitleClaims.



End TitleClaims.

(** * The body-text filter *)

Section BodyTextClaims.

(** C2.  [_is_likely_body_text] returns true exactly when one of the
    seven conditions of the specification holds, and false otherwise;
    "Table 3: Results", "1234" and "INTRODUCTION" are body text,
    "A Deep Dive Into Systems Engineering" is not. *)
Theorem body_text_filter (text : string) :
  (_is_likely_body_text text = true <-> BodyTextSpec.body_text text)
  /\ (_is_likely_body_text text = false <-> ~ BodyTextSpec.body_text text)
  /\ _is_likely_body_text "Table 3: Results" = true
  /\ _is_likely_body_text "1234" = true
  /\ _is_likely_body_text "INTRODUCTION" = true
  /\ _is_likely_body_text "A Deep Dive Into Systems Engineering" = false.
Proof.
  split; [apply body_text_iff|].
  split; [|repeat split].
  rewrite <- body_text_iff. symmetry. apply not_true_iff_false.
Qed.

End BodyTextClaims.

(** * The orchestrator *)

Section OutlinePaths.
Import LevelSpec OutlineSpec.
Variable self : PDFOutlineExtractor.
Variable fs : FileSystem.

(** A page that cannot be read makes the collection of font
    information raise. *)
Lemma info_pages_failure (readable : list Page) (e : exn)
    (rest : list (exn + Page)) :
  forall page_num font_info,
    info_pages self (map inr readable ++ inl e :: rest) page_num font_info
    = inl e.
Proof.
  induction readable as [|p ps IH]; intros n acc; [reflexivity|].
  cbn [map app info_pages]. apply IH.
Qed.

Lemma read_failure_font_info (doc : Document) (e : exn) :
  read_failure doc e -> extract_font_info self doc = inl e.
Proof.
  intros (readable & rest & Hp). unfold extract_font_info.
  rewrite Hp. apply info_pages_failure.
Qed.

Lemma extract_outline_open_error (pdf_path : string) (w : World) (e : exn) :
  fs pdf_path = inl e ->
  extract_outline self fs pdf_path w = on_error pdf_path e w.
Proof.
  intros Hfs. unfold extract_outline, fitz_open. now rewrite Hfs.
Qed.

(** The path through the handler after the document was opened: the
    handler does not close it. *)
Lemma extract_outline_read_error (pdf_path : string) (w : World)
    (doc : Document) (e : exn) :
  fs pdf_path = inr doc -> extract_font_info self doc = inl e ->
  extract_outline self fs pdf_path w =
  on_error pdf_path e
    {| open_docs := pdf_path :: open_docs w; printed := printed w |}.
Proof.
  intros Hfs He. unfold extract_outline, fitz_open. now rewrite Hfs, He.
Qed.

(** The path on which nothing raises: the document is closed. *)
Lemma extract_outline_success (pdf_path : string) (w : World)
    (doc : Document) (font_info : list FontInfo) :
  fs pdf_path = inr doc -> extract_font_info self doc = inr font_info ->
  extract_outline self fs pdf_path w =
  ({| title := strip (extract_title self doc);
      outline :=
        filter (fun h => negb (String.eqb (heading_key h)
                                 (text_key (extract_title self doc))))
               (snd (determine_heading_levels font_info)) |},
   w).
Proof.
  intros Hfs Hfi. unfold extract_outline, fitz_open. rewrite Hfs, Hfi.
  f_equal. unfold doc_close. cbn [open_docs printed remove_first].
  rewrite String.eqb_refl. now destruct w.
Qed.

End OutlinePaths.

Section OutlineClaims.
Import LevelSpec OutlineSpec.

(** C6.  No entry of the returned outline has a lowercased trimmed text
    equal to the lowercased trimmed title.  When the document is read
    without failure, the outline is the leveled heading list, in order,
    without exactly the records whose lowercased trimmed text equals the
    lowercased trimmed title; a heading that merely contains the title
    stays. *)
Theorem outline_excludes_title (self : PDFOutlineExtractor)
    (fs : FileSystem) (pdf_path : string) (w : World) :
  Forall (fun h => heading_key h
                   <> text_key (title (fst (extract_outline self fs pdf_path w))))
         (outline (fst (extract_outline self fs pdf_path w)))
  /\ (forall doc font_info,
        fs pdf_path = inr doc ->
        extract_font_info self doc = inr font_info ->
        title (fst (extract_outline self fs pdf_path w))
        = strip (extract_title self doc)
        /\ subsequence (outline (fst (extract_outline self fs pdf_path w)))
                       (snd (determine_heading_levels font_info))
        /\ forall h,
             In h (outline (fst (extract_outline self fs pdf_path w)))
             <-> In h (snd (determine_heading_levels font_info))
                 /\ heading_key h <> text_key (extract_title self doc))
  /\ fst (extract_outline default_extractor Scenario.files "report.pdf"
            Scenario.idle)
     = {| title := "Annual Report 2024"; outline := [] |}
  /\ fst (extract_outline default_extractor Scenario.files "overview.pdf"
            Scenario.idle)
     = {| title := "Annual Report";
          outline := [{| level := H2; text := "Annual Report Overview";
                         page := 1 |}] |}.
Proof.
  assert (Hok : forall doc font_info,
             fs pdf_path = inr doc ->
             extract_font_info self doc = inr font_info ->
             title (fst (extract_outline self fs pdf_path w))
             = strip (extract_title self doc)
             /\ subsequence (outline (fst (extract_outline self fs pdf_path w)))
                            (snd (determine_heading_levels font_info))
             /\ forall h,
                  In h (outline (fst (extract_outline self fs pdf_path w)))
                  <-> In h (snd (determine_heading_levels font_info))
                      /\ heading_key h <> text_key (extract_title self doc)).
  { intros doc font_info Hfs Hfi.
    rewrite (extract_outline_success self fs pdf_path w doc font_info Hfs Hfi).
    cbn [fst title outline]. split; [reflexivity|].
    split; [apply subsequence_filter|].
    intros h. rewrite filter_In, negb_true_iff, String.eqb_neq. tauto. }
  split; [|split; [exact Hok | split; reflexivity]].
  destruct (fs pdf_path) as [e | doc] eqn:Hfs.
  - rewrite (extract_outline_open_error self fs pdf_path w e Hfs).
    constructor.
  - destruct (extract_font_info self doc) as [e | font_info] eqn:Hfi.
    + rewrite (extract_outline_read_error self fs pdf_path w doc e Hfs Hfi).
      constructor.
    + destruct (Hok doc font_info eq_refl Hfi) as (Ht & _ & Hin).
      rewrite Ht, text_key_strip. apply Forall_forall.
      intros h Hh. now apply Hin in Hh.
Qed.

(** C8, as stated, fails for a failure inside the title extraction: the
    first read of page 1 raises in [extract_title], which catches it; the
    later read by [extract_font_info] succeeds, so the call returns the
    empty title with a non-empty outline, prints nothing and closes the
    document. *)
Lemma title_read_failure_is_not_reported :
  any_failure Scenario.flaky_files "flaky.pdf" "transient read error"
  /\ extract_outline default_extractor Scenario.flaky_files "flaky.pdf"
       Scenario.idle
     = ({| title := EmptyString;
           outline :=
             [{| level := H1; text := "Annual Report"; page := 1 |};
              {| level := H2; text := "Annual Report Overview";
                 page := 1 |}] |},
        Scenario.idle)
  /\ ~ (fst (extract_outline default_extractor Scenario.flaky_files
               "flaky.pdf" Scenario.idle)
        = {| title := EmptyString; outline := [] |}
        /\ printed (snd (extract_outline default_extractor
                           Scenario.flaky_files "flaky.pdf" Scenario.idle))
           = (printed Scenario.idle
              ++ [report "flaky.pdf" "transient read error"])%list).
Proof.
split.
{ right. exists Scenario.flaky. split; [reflexivity|].
  eexists. eexists. split; reflexivity. }
split; [reflexivity|].
intros [Hres _]. discriminate Hres.
Qed.

(** C8, amended.  When opening the file fails, or a read of a page raises
    while the font information is collected, the call returns the outline
    with the empty title and no heading, and prints one line that names
    the file path and the error; the result is an ordinary return value.
    (A failure that is raised inside the title extraction only is caught
    there and is not a failure of the call.) *)
Theorem failure_gives_empty_outline (self : PDFOutlineExtractor)
    (fs : FileSystem) (pdf_path : string) (w : World) (e : exn)
    (Hfail : failure fs pdf_path e) :
  fst (extract_outline self fs pdf_path w)
  = {| title := EmptyString; outline := [] |}
  /\ printed (snd (extract_outline self fs pdf_path w))
     = (printed w ++ [report pdf_path e])%list.
Proof.
  destruct Hfail as [Hopen | (doc & Hfs & Hread)].
  - rewrite (extract_outline_open_error self fs pdf_path w e Hopen).
    split; reflexivity.
  - rewrite (extract_outline_read_error self fs pdf_path w doc e Hfs
               (read_failure_font_info self doc e Hread)).
    split; reflexivity.
Qed.

Lemma failure_gives_empty_outline_witness :
  failure Scenario.files "broken.pdf" "cannot read page 1"
  /\ fst (extract_outline default_extractor Scenario.files "broken.pdf"
            Scenario.idle)
     = {| title := EmptyString; outline := [] |}
  /\ printed (snd (extract_outline default_extractor Scenario.files
                     "broken.pdf" Scenario.idle))
     = (printed Scenario.idle
        ++ [report "broken.pdf" "cannot read page 1"])%list.
Proof.
  assert (H : failure Scenario.files "broken.pdf" "cannot read page 1").
  { right. exists Scenario.unreadable. split; [reflexivity|].
    exists [], []. reflexivity. }
  split; [exact H|].
  exact (failure_gives_empty_outline default_extractor Scenario.files
           "broken.pdf" Scenario.idle "cannot read page 1" H).
Defined.

(** C1.  The document handle is closed on the path on which nothing
    raises, but not on the path through the handler: for a document that
    opens and whose page cannot be read, the call returns the empty
    outline and the document is still open. *)
Theorem failed_read_leaves_document_open :
  fst (extract_outline default_extractor Scenario.files "broken.pdf"
         Scenario.idle)
  = {| title := EmptyString; outline := [] |}
  /\ open_docs (snd (extract_outline default_extractor Scenario.files
                       "broken.pdf" Scenario.idle))
     = ["broken.pdf"]
  /\ open_docs (snd (extract_outline default_extractor Scenario.files
                       "report.pdf" Scenario.idle))
     = [].
Proof. repeat split. Qed.

End OutlineClaims.

(** * Further properties of the source *)

(** ** [extract_font_info] *)

Section FontInfoFacts.
Import FontInfoSpec OutlineSpec.
Variable self : PDFOutlineExtractor.

Lemma py_max_ge_l (a b : Qc) : (a <= py_max a b)%Qc.
Proof.
unfold py_max. destruct (Qcltb a b) eqn:E.
- apply Qcltb_lt in E. now apply Qclt_le_weak.
- apply Qcle_refl.
Qed.

Lemma fold_py_max_ge (rest : list Qc) :
  forall first, (first <= fold_left py_max rest first)%Qc.
Proof.
induction rest as [|x r IH]; intros first; cbn [fold_left].
- apply Qcle_refl.
- eapply Qcle_trans; [apply (py_max_ge_l first x) | apply IH].
Qed.

(** Every line kept for a block has at least the minimum font size. *)
Lemma info_line_step_sizes (lines : list (string * Qc * bool)) (line : Line) :
  Forall (fun l => (min_font_size self <= snd (fst l))%Qc) lines ->
  Forall (fun l => (min_font_size self <= snd (fst l))%Qc)
         (info_line_step self lines line).
Proof.
intros Hl. unfold info_line_step.
destruct (fold_left info_span_step (line_spans line) (EmptyString, 0%Qc, false))
  as [[t s] b].
destruct (strip t); [exact Hl|].
destruct (Qcleb (min_font_size self) s) eqn:E; [|exact Hl].
apply Forall_app. split; [exact Hl|].
constructor; [|constructor]. now apply Qcleb_le.
Qed.

Lemma info_lines_sizes (lines : list Line) :
  forall acc,
    Forall (fun l => (min_font_size self <= snd (fst l))%Qc) acc ->
    Forall (fun l => (min_font_size self <= snd (fst l))%Qc)
           (fold_left (info_line_step self) lines acc).
Proof.
induction lines as [|line lines IH]; intros acc Hacc; cbn [fold_left].
- exact Hacc.
- apply IH. now apply info_line_step_sizes.
Qed.

(** A block adds nothing or one candidate that passed every check. *)
Lemma info_block_step_cases (page_num : nat) (font_info : list FontInfo)
    (block : Block) :
  info_block_step self page_num font_info block = font_info
  \/ exists x,
      info_block_step self page_num font_info block = (font_info ++ [x])%list
      /\ candidate_ok self x /\ fi_page x = page_num + 1.
Proof.
unfold info_block_step.
destruct (block_lines block) as [lines|]; [|now left].
pose proof (info_lines_sizes lines [] (Forall_nil _)) as Hsizes.
destruct (fold_left (info_line_step self) lines []) as [|first rest];
  [now left|].
set (combined := strip (join " " (map (fun l => fst (fst l)) (first :: rest)))).
set (size := max_of (snd (fst first)) (map (fun l => snd (fst l)) rest)).
set (bold := existsb (fun l => snd l) (first :: rest)).
destruct ((min_text_length self <=? Z.of_nat (len combined))%Z) eqn:Elen;
  [|now left].
destruct (_is_likely_body_text combined) eqn:Ebody; [now left|].
cbn [negb andb].
destruct (Qcltb (Qc_of_Z 12) size || bold) eqn:Egate; [|now left].
right. exists (combined, size, bold, page_num + 1).
split; [reflexivity|]. split; [|reflexivity].
unfold candidate_ok. cbn [fi_text fi_size fi_bold].
split; [apply strip_idem|].
split; [now apply Z.leb_le|].
split; [exact Ebody|].
split.
- apply (Qcle_trans _ (snd (fst first))).
  + now apply Forall_inv in Hsizes.
  + apply fold_py_max_ge.
- apply orb_true_iff in Egate. destruct Egate as [E | E].
  + left. now apply Qcltb_lt.
  + now right.
Qed.

Lemma info_blocks_spec (page_num : nat) (blocks : list Block) :
  forall font_info,
    exists new,
      fold_left (info_block_step self page_num) blocks font_info
      = (font_info ++ new)%list
      /\ Forall (fun x => candidate_ok self x /\ fi_page x = page_num + 1) new
      /\ List.length new <= List.length blocks.
Proof.
induction blocks as [|b blocks IH]; intros acc; cbn [fold_left].
- exists []. rewrite app_nil_r. repeat split; [constructor | simpl; lia].
- destruct (info_block_step_cases page_num acc b) as [-> | (x & -> & Hx & Hp)].
  + destruct (IH acc) as (new & -> & Hnew & Hlen).
    exists new. repeat split; [exact Hnew | simpl; lia].
  + destruct (IH (acc ++ [x])%list) as (new & -> & Hnew & Hlen).
    exists (x :: new). rewrite <- app_assoc. repeat split.
    * constructor; [now split | exact Hnew].
    * simpl. lia.
Qed.

(** The loop over the pages: what it appends when no page fails. *)
Lemma info_pages_spec (pages : list (exn + Page)) :
  forall page_num font_info result,
    info_pages self pages page_num font_info = inr result ->
    exists new,
      result = (font_info ++ new)%list
      /\ Forall (fun x => candidate_ok self x
                          /\ page_num < fi_page x
                          /\ fi_page x <= page_num + List.length pages) new
      /\ StronglySorted (fun a b => fi_page a <= fi_page b) new
      /\ List.length new <= layout_blocks pages.
Proof.
induction pages as [|[e | page] pages IH]; intros n acc result Hres;
  cbn [info_pages] in Hres.
- injection Hres as <-. exists []. rewrite app_nil_r.
  repeat split; constructor.
- discriminate.
- destruct (info_blocks_spec n (page_blocks page) acc)
    as (new1 & Hnew1 & Hok1 & Hlen1).
  rewrite Hnew1 in Hres.
  destruct (IH _ _ _ Hres) as (new2 & -> & Hok2 & Hs2 & Hlen2).
  exists (new1 ++ new2)%list. rewrite app_assoc.
  rewrite Forall_forall in Hok1, Hok2.
  split; [reflexivity|]. split; [|split].
  + apply Forall_app. split; apply Forall_forall; intros x Hx.
    * destruct (Hok1 x Hx) as [Hc Hp]. cbn [List.length]. split; [exact Hc | lia].
    * destruct (Hok2 x Hx) as (Hc & Hlo & Hhi). cbn [List.length].
      split; [exact Hc | lia].
  + apply StronglySorted_app; [| exact Hs2 |].
    * clear -Hok1. induction new1 as [|x new1 IHn]; constructor.
      -- apply IHn. intros y Hy. apply Hok1. now right.
      -- apply Forall_forall. intros y Hy.
         destruct (Hok1 x (or_introl eq_refl)) as [_ Hx].
         destruct (Hok1 y (or_intror Hy)) as [_ Hy']. lia.
    * intros a b Ha Hb. destruct (Hok1 a Ha) as [_ Hpa].
      destruct (Hok2 b Hb) as (_ & Hlo & _). lia.
  + rewrite length_app. unfold layout_blocks, list_sum in *.
    cbn [map fold_right]. lia.
Qed.

(** The loop raises exactly the error of the first page that fails. *)
Lemma info_pages_error (pages : list (exn + Page)) (e : exn) :
  forall page_num font_info,
    info_pages self pages page_num font_info = inl e ->
    exists (readable : list Page) (rest : list (exn + Page)),
      pages = (map inr readable ++ inl e :: rest)%list.
Proof.
induction pages as [|[e' | page] pages IH]; intros n acc Hres;
  cbn [info_pages] in Hres.
- discriminate.
- injection Hres as ->. now exists [], pages.
- destruct (IH _ _ Hres) as (readable & rest & ->).
  now exists (page :: readable), rest.
Qed.

Lemma info_pages_readable (pages : list Page) :
  forall page_num font_info,
    exists result,
      info_pages self (map inr pages) page_num font_info = inr result.
Proof.
induction pages as [|page pages IH]; intros n acc; cbn [map info_pages].
- now exists acc.
- apply IH.
Qed.

End FontInfoFacts.

Section FontInfoProperties.
Import FontInfoSpec OutlineSpec.

(** X1.  [extract_font_info] raises exactly when a page cannot be read,
    with the error of the first such page, and returns a list exactly when
    every page can be read. *)
Theorem font_info_fails_iff_unreadable (self : PDFOutlineExtractor)
    (doc : Document) :
  (forall e, extract_font_info self doc = inl e <-> read_failure doc e)
  /\ ((exists font_info, extract_font_info self doc = inr font_info)
      <-> readable doc).
Proof.
split.
- intros e. split.
  + unfold extract_font_info, read_failure. apply info_pages_error.
  + apply read_failure_font_info.
- split.
  + intros [font_info Hfi]. unfold readable.
    unfold extract_font_info in Hfi.
    revert Hfi. generalize 0 at 1. generalize (@nil FontInfo).
    induction (doc_pages doc) as [|[e | page] pages IH]; intros acc n Hfi.
    * now exists [].
    * discriminate.
    * cbn [info_pages] in Hfi. destruct (IH _ _ Hfi) as [ps ->].
      now exists (page :: ps).
  + intros [pages Hp]. unfold extract_font_info. rewrite Hp.
    apply info_pages_readable.
Qed.

(** X2.  Every candidate that [extract_font_info] returns has passed its
    checks: the text is trimmed, has the minimum length and is not body
    text, the font size is at least the minimum font size, and the size
    exceeds 12 or the block is bold. *)
Theorem font_info_candidates_checked (self : PDFOutlineExtractor)
    (doc : Document) (font_info : list FontInfo)
    (Hfi : extract_font_info self doc = inr font_info) :
  Forall (candidate_ok self) font_info.
Proof.
destruct (info_pages_spec self _ _ _ _ Hfi) as (new & -> & Hok & _).
cbn [app]. eapply Forall_impl; [|exact Hok]. intros x Hx. apply Hx.
Qed.

Lemma font_info_candidates_checked_witness :
  extract_font_info default_extractor Scenario.report_with_overview
  = inr [("Annual Report", Qc_of_Z 24, false, 1);
         ("Annual Report Overview", Qc_of_Z 18, false, 1)]
  /\ Forall (candidate_ok default_extractor)
            [("Annual Report", Qc_of_Z 24, false, 1);
             ("Annual Report Overview", Qc_of_Z 18, false, 1)].
Proof.
split; [reflexivity|].
apply (font_info_candidates_checked default_extractor
         Scenario.report_with_overview).
reflexivity.
Defined.

(** X3.  The candidates come out in page order, carry page numbers from 1
    to the number of pages, and are at most one per layout block. *)
Theorem font_info_pages_in_order (self : PDFOutlineExtractor)
    (doc : Document) (font_info : list FontInfo)
    (Hfi : extract_font_info self doc = inr font_info) :
  Forall (fun x => 1 <= fi_page x <= List.length (doc_pages doc)) font_info
  /\ StronglySorted (fun a b => fi_page a <= fi_page b) font_info
  /\ List.length font_info <= layout_blocks (doc_pages doc).
Proof.
destruct (info_pages_spec self _ _ _ _ Hfi) as (new & -> & Hok & Hs & Hlen).
cbn [app]. split; [|split; assumption].
eapply Forall_impl; [|exact Hok]. intros x (_ & Hlo & Hhi). lia.
Qed.

Lemma font_info_pages_in_order_witness :
  extract_font_info default_extractor Scenario.report_with_overview
  = inr [("Annual Report", Qc_of_Z 24, false, 1);
         ("Annual Report Overview", Qc_of_Z 18, false, 1)]
  /\ Forall (fun x => 1 <= fi_page x
                      <= List.length (doc_pages Scenario.report_with_overview))
            [("Annual Report", Qc_of_Z 24, false, 1);
             ("Annual Report Overview", Qc_of_Z 18, false, 1)]
  /\ StronglySorted (fun a b => fi_page a <= fi_page b)
       [("Annual Report", Qc_of_Z 24, false, 1);
        ("Annual Report Overview", Qc_of_Z 18, false, 1)]
  /\ List.length [("Annual Report", Qc_of_Z 24, false, 1);
                  ("Annual Report Overview", Qc_of_Z 18, false, 1)]
     <= layout_blocks (doc_pages Scenario.report_with_overview).
Proof.
split; [reflexivity|].
apply (font_info_pages_in_order default_extractor
         Scenario.report_with_overview).
reflexivity.
Defined.

End FontInfoProperties.

(** ** [determine_heading_levels] *)

Section LevelerFacts.
Import LevelSpec.

(** The sorted list of sizes depends on the sizes that occur only. *)
Lemma font_sizes_eq (l l' : list FontInfo) :
  (forall s, In s (sizes l) <-> In s (sizes l')) ->
  py_sort (fun s : Qc => s) Qcltb true (size_set l)
  = py_sort (fun s : Qc => s) Qcltb true (size_set l').
Proof.
intros Hin. apply sorted_distinct_unique.
- apply font_sizes_NoDup.
- apply font_sizes_NoDup.
- apply font_sizes_sorted.
- apply font_sizes_sorted.
- intros s. now rewrite !font_sizes_In.
Qed.

(** One ascending sort on (page, -size) gives page-then-size order. *)
Lemma neg_size_sort_sorted (l : list FontInfo) :
  StronglySorted page_size_order
                 (py_sort key_page_neg_size tuple_lt false l).
Proof.
eapply StronglySorted_weaken;
  [| apply (py_sort_ascending key_page_neg_size tuple_lt
              tuple_lt_asym tuple_lt_negtrans)].
intros a b Hab. unfold ascending, key_page_neg_size in Hab.
apply tuple_lt_false in Hab. cbn [fst snd] in Hab.
destruct Hab as [H | [Hp Hs]]; [now left | right].
split; [now symmetry | now apply Qcopp_le_cancel].
Qed.

Lemma neg_size_sort_stable (p : nat) (s : Qc) (l : list FontInfo) :
  filter (tie p s) (py_sort key_page_neg_size tuple_lt false l)
  = filter (tie p s) l.
Proof.
apply filter_py_sort. intros x y Hx Hy.
destruct (tie_page_size p s x y Hx Hy) as [Hp Hs].
apply tuple_lt_false. right. unfold key_page_neg_size. cbn [fst snd].
split; [exact Hp|]. rewrite Hs. apply Qcle_refl.
Qed.

Lemma processing_order_fixed (l : list FontInfo) :
  processing_order (processing_order l) = processing_order l.
Proof.
apply stable_order_unique; try apply processing_order_sorted.
intros p s. apply processing_order_stable.
Qed.

Lemma first_occurrences_nonempty {X : Type} (key : X -> string)
    (l : list X) :
  l <> [] -> first_occurrences key l <> [].
Proof. destruct l; [congruence | discriminate]. Qed.

End LevelerFacts.

Section LevelerProperties.
Import LevelSpec.

(** X4.  The size-to-level dictionary does not depend on the order of the
    candidates: two lists that are permutations of each other get the same
    dictionary. *)
Theorem size_to_level_permutation (l l' : list FontInfo)
    (Hperm : Permutation l l') :
  size_to_level l = size_to_level l'.
Proof.
unfold size_to_level, size_to_level_of. f_equal.
apply font_sizes_eq. intros s.
rewrite (sizes_perm _ _ (py_sort_perm key_page_size tuple_lt true l) s).
rewrite (sizes_perm _ _ (py_sort_perm key_page_size tuple_lt true l') s).
now apply sizes_perm.
Qed.

Lemma size_to_level_permutation_witness :
  Permutation Scenario.unordered (rev Scenario.unordered)
  /\ size_to_level Scenario.unordered
     = size_to_level (rev Scenario.unordered).
Proof.
assert (H : Permutation Scenario.unordered (rev Scenario.unordered))
  by apply Permutation_rev.
split; [exact H|].
exact (size_to_level_permutation Scenario.unordered
         (rev Scenario.unordered) H).
Defined.

(** X5.  The first sort (descending on page and size) has no effect on
    the result: the list the caller is left with is the input sorted once,
    ascending on (page, -size), and the headings are those the loop emits
    over that list with the dictionary built from the unsorted input. *)
Theorem first_sort_is_redundant (font_info : list FontInfo) :
  fst (determine_heading_levels font_info)
  = py_sort key_page_neg_size tuple_lt false font_info
  /\ snd (determine_heading_levels font_info)
     = fst (fold_left (heading_step (size_to_level_of font_info))
                      (py_sort key_page_neg_size tuple_lt false font_info)
                      ([], [])).
Proof.
assert (Horder : processing_order font_info
                 = py_sort key_page_neg_size tuple_lt false font_info).
{ apply stable_order_unique.
  - apply processing_order_sorted.
  - apply neg_size_sort_sorted.
  - intros p s.
    now rewrite processing_order_stable, neg_size_sort_stable. }
assert (Hdict : size_to_level font_info = size_to_level_of font_info).
{ unfold size_to_level, size_to_level_of. f_equal.
  apply font_sizes_eq. apply sizes_perm, py_sort_perm. }
rewrite determine_heading_levels_eq. cbn [fst snd].
split; [exact Horder|].
now rewrite heading_loop_start, <- Horder, <- Hdict.
Qed.

(** X6.  Calling [determine_heading_levels] again on the list the first
    call left behind returns the same headings and leaves the list as it
    is. *)
Theorem second_call_changes_nothing (font_info : list FontInfo) :
  determine_heading_levels (fst (determine_heading_levels font_info))
  = determine_heading_levels font_info.
Proof.
rewrite !determine_heading_levels_eq. cbn [fst].
rewrite processing_order_fixed.
assert (Hdict : size_to_level (processing_order font_info)
                = size_to_level font_info).
{ unfold size_to_level, size_to_level_of. f_equal.
  apply font_sizes_eq. intros s.
  rewrite (sizes_perm _ _ (py_sort_perm key_page_size tuple_lt true
                             (processing_order font_info)) s).
  rewrite (sizes_perm _ _ (py_sort_perm key_page_size tuple_lt true
                             font_info) s).
  apply sizes_perm, processing_order_perm. }
now rewrite Hdict.
Qed.

(** X7.  A non-empty list of candidates always yields at least one
    heading: the largest size has a level, and the first candidate with a
    level is never a duplicate. *)
Theorem nonempty_input_gives_heading (font_info : list FontInfo)
    (Hne : font_info <> []) :
  snd (determine_heading_levels font_info) <> [].
Proof.
rewrite determine_heading_levels_eq. cbn [snd].
intros Hmap. apply map_eq_nil in Hmap. revert Hmap.
apply first_occurrences_nonempty.
destruct font_info as [|x0 l0]; [congruence|].
set (l := x0 :: l0) in *.
set (fs := py_sort (fun s : Qc => s) Qcltb true
             (size_set (py_sort key_page_size tuple_lt true l))).
assert (Hin0 : In (fi_size x0) fs).
{ apply size_to_level_In. now left. }
destruct fs as [|s0 fs'] eqn:Efs; [destruct Hin0|].
assert (Hs0 : In s0 (sizes l)).
{ apply size_to_level_In. fold fs. rewrite Efs. now left. }
assert (Hlv : dict_get (size_to_level l) s0 = Some H1).
{ unfold size_to_level, size_to_level_of. fold fs. rewrite Efs.
  apply (assign_levels_nth (s0 :: fs') 0 s0); [|reflexivity].
  rewrite <- Efs. apply font_sizes_NoDup. }
unfold sizes in Hs0. apply in_map_iff in Hs0.
destruct Hs0 as (x & Hx & Hxl).
intros Hnil.
assert (Hmem : In x (filter (has_level (size_to_level l))
                            (processing_order l))).
{ apply filter_In. split.
  - eapply Permutation_in; [symmetry; apply processing_order_perm | exact Hxl].
  - unfold has_level. now rewrite Hx, Hlv. }
rewrite Hnil in Hmem. destruct Hmem.
Qed.

Lemma nonempty_input_gives_heading_witness :
  Scenario.repeated <> []
  /\ snd (determine_heading_levels Scenario.repeated) <> [].
Proof.
assert (H : Scenario.repeated <> []) by discriminate.
split; [exact H|].
exact (nonempty_input_gives_heading Scenario.repeated H).
Defined.

End LevelerProperties.

(** ** [extract_title] and [extract_outline] *)

Section OutlineProperties.
Import LevelSpec FontInfoSpec OutlineSpec.

Lemma strip_empty : strip EmptyString = EmptyString.
Proof. reflexivity. Qed.

Lemma extract_title_trimmed (self : PDFOutlineExtractor) (doc : Document) :
  strip (extract_title self doc) = extract_title self doc.
Proof.
unfold extract_title, extract_title_body.
destruct (doc_pages doc) as [|later_read rest]; [reflexivity|].
destruct (first_read doc later_read) as [e | first_page]; [reflexivity|].
destruct (fold_left _ (page_blocks first_page) []); [reflexivity|].
apply strip_idem.
Qed.

(** X8.  Every entry of a returned outline comes from a document that
    opened, carries a page number between 1 and the number of pages, and
    has a text that is trimmed, is not body text and has the minimum
    length. *)
Theorem outline_entries_wellformed (self : PDFOutlineExtractor)
    (fs : FileSystem) (pdf_path : string) (w : World) (h : Heading)
    (Hin : In h (outline (fst (extract_outline self fs pdf_path w)))) :
  exists doc,
    fs pdf_path = inr doc
    /\ 1 <= page h <= List.length (doc_pages doc)
    /\ strip (text h) = text h
    /\ _is_likely_body_text (text h) = false
    /\ (min_text_length self <= Z.of_nat (len (text h)))%Z.
Proof.
destruct (fs pdf_path) as [e | doc] eqn:Hfs.
- rewrite (extract_outline_open_error self fs pdf_path w e Hfs) in Hin.
  destruct Hin.
- destruct (extract_font_info self doc) as [e | font_info] eqn:Hfi.
  + rewrite (extract_outline_read_error self fs pdf_path w doc e Hfs Hfi)
      in Hin.
    destruct Hin.
  + rewrite (extract_outline_success self fs pdf_path w doc font_info Hfs Hfi)
      in Hin.
    cbn [fst outline] in Hin. apply filter_In in Hin. destruct Hin as [Hin _].
    destruct (heading_source _ _ Hin) as (x & Hx & _ & ->).
    destruct (info_pages_spec self _ _ _ _ Hfi) as (new & Hnew & Hok & _).
    cbn [app] in Hnew. subst new. rewrite Forall_forall in Hok.
    destruct (Hok x Hx) as ((Htrim & Hlen & Hbody & _) & Hlo & Hhi).
    exists doc. cbn [heading_of text page].
    split; [reflexivity|]. split; [lia|].
    rewrite Htrim. now repeat split.
Qed.

Lemma outline_entries_wellformed_witness :
  In {| level := H2; text := "Annual Report Overview"; page := 1 |}
     (outline (fst (extract_outline default_extractor Scenario.files
                      "overview.pdf" Scenario.idle)))
  /\ exists doc,
       Scenario.files "overview.pdf" = inr doc
       /\ 1 <= 1 <= List.length (doc_pages doc)
       /\ strip "Annual Report Overview" = "Annual Report Overview"
       /\ _is_likely_body_text "Annual Report Overview" = false
       /\ (min_text_length default_extractor
           <= Z.of_nat (len "Annual Report Overview"))%Z.
Proof.
assert (H : In {| level := H2; text := "Annual Report Overview"; page := 1 |}
              (outline (fst (extract_outline default_extractor Scenario.files
                               "overview.pdf" Scenario.idle))))
  by (left; reflexivity).
split; [exact H|].
exact (outline_entries_wellformed default_extractor Scenario.files
         "overview.pdf" Scenario.idle _ H).
Defined.

(** X9.  When the file opens and every page can be read, the call prints
    nothing and closes the document it opened: the world is as before. *)
Theorem readable_document_leaves_world (self : PDFOutlineExtractor)
    (fs : FileSystem) (pdf_path : string) (w : World) (doc : Document)
    (Hfs : fs pdf_path = inr doc) (Hread : readable doc) :
  snd (extract_outline self fs pdf_path w) = w.
Proof.
destruct Hread as [pages Hpages].
destruct (info_pages_readable self pages 0 []) as [font_info Hfi].
rewrite <- Hpages in Hfi. fold (extract_font_info self doc) in Hfi.
now rewrite (extract_outline_success self fs pdf_path w doc font_info Hfs Hfi).
Qed.

Lemma readable_document_leaves_world_witness :
  Scenario.files "report.pdf" = inr Scenario.annual_report
  /\ readable Scenario.annual_report
  /\ snd (extract_outline default_extractor Scenario.files "report.pdf"
            Scenario.idle) = Scenario.idle.
Proof.
assert (H : readable Scenario.annual_report).
{ exists [ {| page_width := 612%float;
              page_blocks :=
                [Scenario.one_line_block
                   (Scenario.centered_span "Annual Report 2024" 24)] |} ].
  reflexivity. }
split; [reflexivity|]. split; [exact H|].
exact (readable_document_leaves_world default_extractor Scenario.files
         "report.pdf" Scenario.idle Scenario.annual_report eq_refl H).
Defined.

(** X10.  After the call the set of open documents is what it was, or has
    the document of the call added; it is added exactly when the file opens
    and a read of a page raises while the font information is collected.
    A read that raises inside the title extraction does not leave the
    document open when the later reads succeed. *)
Theorem document_left_open_iff_read_fails (self : PDFOutlineExtractor)
    (fs : FileSystem) (pdf_path : string) (w : World) :
  (open_docs (snd (extract_outline self fs pdf_path w)) = open_docs w
   \/ open_docs (snd (extract_outline self fs pdf_path w))
      = pdf_path :: open_docs w)
  /\ (open_docs (snd (extract_outline self fs pdf_path w))
      = pdf_path :: open_docs w
      <-> exists doc e, fs pdf_path = inr doc /\ read_failure doc e)
  /\ (forall doc e,
        fs pdf_path = inr doc -> title_read_failure doc e ->
        readable doc ->
        snd (extract_outline self fs pdf_path w) = w).
Proof.
assert (Htitle : forall doc e,
           fs pdf_path = inr doc -> title_read_failure doc e ->
           readable doc ->
           snd (extract_outline self fs pdf_path w) = w).
{ intros doc e Hfs _ [pages Hpages].
  destruct (info_pages_readable self pages 0 []) as [font_info Hfi].
  rewrite <- Hpages in Hfi. fold (extract_font_info self doc) in Hfi.
  now rewrite (extract_outline_success self fs pdf_path w doc font_info
                 Hfs Hfi). }
enough (H : (open_docs (snd (extract_outline self fs pdf_path w))
             = open_docs w
             \/ open_docs (snd (extract_outline self fs pdf_path w))
                = pdf_path :: open_docs w)
            /\ (open_docs (snd (extract_outline self fs pdf_path w))
                = pdf_path :: open_docs w
                <-> exists doc e,
                      fs pdf_path = inr doc /\ read_failure doc e))
  by (destruct H as [Ha Hb]; split; [exact Ha | split; assumption]).
clear Htitle.
assert (Hneq : forall l : list string, pdf_path :: l <> l).
{ intros l H. apply (f_equal (@List.length string)) in H. simpl in H. lia. }
destruct (fs pdf_path) as [e | doc] eqn:Hfs.
- rewrite (extract_outline_open_error self fs pdf_path w e Hfs).
  cbn [on_error snd print open_docs]. split; [now left|]. split.
  + intros H. symmetry in H. now apply Hneq in H.
  + intros (doc & e' & Hdoc & _). discriminate.
- destruct (extract_font_info self doc) as [e | font_info] eqn:Hfi.
  + rewrite (extract_outline_read_error self fs pdf_path w doc e Hfs Hfi).
    cbn [on_error snd print open_docs]. split; [now right|].
    split; [|reflexivity]. intros _. exists doc, e. split; [reflexivity|].
    unfold extract_font_info in Hfi. unfold read_failure.
    now apply (info_pages_error self _ _ _ _ Hfi).
  + rewrite (extract_outline_success self fs pdf_path w doc font_info Hfs Hfi).
    cbn [snd]. split; [now left|]. split.
    * intros H. symmetry in H. now apply Hneq in H.
    * intros (doc' & e & Hdoc & Hfail). injection Hdoc as <-.
      rewrite (read_failure_font_info self doc e Hfail) in Hfi. discriminate.
Qed.

(** X11.  The title is trimmed: [extract_title] returns a string without
    leading or trailing whitespace, and so does [extract_outline] in the
    title of its result. *)
Theorem title_is_trimmed (self : PDFOutlineExtractor) (fs : FileSystem)
    (pdf_path : string) (w : World) (doc : Document) :
  strip (extract_title self doc) = extract_title self doc
  /\ strip (title (fst (extract_outline self fs pdf_path w)))
     = title (fst (extract_outline self fs pdf_path w)).
Proof.
split; [apply extract_title_trimmed|].
destruct (fs pdf_path) as [e | doc'] eqn:Hfs.
- now rewrite (extract_outline_open_error self fs pdf_path w e Hfs).
- destruct (extract_font_info self doc') as [e | font_info] eqn:Hfi.
  + now rewrite (extract_outline_read_error self fs pdf_path w doc' e Hfs Hfi).
  + rewrite (extract_outline_success self fs pdf_path w doc' font_info Hfs Hfi).
    cbn [fst title]. apply strip_idem.
Qed.

(** X12.  A document without pages gives the empty title and the empty
    outline, silently: nothing is printed and no document stays open. *)
Theorem empty_document_gives_empty_outline (self : PDFOutlineExtractor)
    (fs : FileSystem) (pdf_path : string) (w : World) (doc : Document)
    (Hfs : fs pdf_path = inr doc) (Hempty : doc_pages doc = []) :
  extract_outline self fs pdf_path w
  = ({| title := EmptyString; outline := [] |}, w).
Proof.
assert (Hfi : extract_font_info self doc = inr []).
{ unfold extract_font_info. now rewrite Hempty. }
rewrite (extract_outline_success self fs pdf_path w doc [] Hfs Hfi).
unfold extract_title, extract_title_body. now rewrite Hempty.
Qed.

Lemma empty_document_gives_empty_outline_witness :
  (fun _ : string => @inr exn Document Scenario.no_pages) "empty.pdf"
  = inr Scenario.no_pages
  /\ doc_pages Scenario.no_pages = []
  /\ extract_outline default_extractor (fun _ => inr Scenario.no_pages)
       "empty.pdf" Scenario.idle
     = ({| title := EmptyString; outline := [] |}, Scenario.idle).
Proof.
split; [reflexivity|]. split; [reflexivity|].
exact (empty_document_gives_empty_outline default_extractor
         (fun _ => inr Scenario.no_pages) "empty.pdf" Scenario.idle
         Scenario.no_pages eq_refl eq_refl).
Defined.

End OutlineProperties.

(** ** [process_folder] *)

Section BatchFacts.
Import BatchSpec.
Variable self : PDFOutlineExtractor.
Variable os : OS.
Variable json_dump : Outline -> string.
Variable arrow : string.

(** The result of [extract_outline] does not depend on the world. *)
Lemma extract_outline_result (fs : FileSystem) (pdf_path : string)
    (w : World) :
  fst (extract_outline self fs pdf_path w) = outline_of self fs pdf_path.
Proof.
unfold outline_of, extract_outline, fitz_open.
destruct (fs pdf_path) as [e | doc]; [reflexivity|].
now destruct (extract_font_info self doc).
Qed.

Lemma process_file_written (input_folder output_folder : string)
    (m : Machine) (filename : string) :
  written (process_file self os json_dump arrow input_folder output_folder
             m filename)
  = (written m
     ++ (if writable os output_folder filename
         then [(output_path_of output_folder filename,
                json_dump (outline_of self (os_files os)
                             (path_join input_folder filename)))]
         else []))%list.
Proof.
unfold process_file, writable, output_path_of.
pose proof (extract_outline_result (os_files os)
              (path_join input_folder filename)
              (print ("Processing: " ++ filename) (world m))) as Hres.
destruct (extract_outline self (os_files os) _ _) as [result w2].
cbn [fst] in Hres. subst result.
destruct (os_open_write os _); cbn [written]; [now rewrite app_nil_r|].
reflexivity.
Qed.

Lemma process_files_written (input_folder output_folder : string)
    (pdf_files : list string) :
  forall m,
    written (fold_left (process_file self os json_dump arrow input_folder
                          output_folder) pdf_files m)
    = (written m
       ++ map (fun f => (output_path_of output_folder f,
                         json_dump (outline_of self (os_files os)
                                      (path_join input_folder f))))
              (filter (writable os output_folder) pdf_files))%list.
Proof.
induction pdf_files as [|f fs IH]; intros m; cbn [fold_left filter].
- now rewrite app_nil_r.
- rewrite IH, process_file_written.
  destruct (writable os output_folder f); cbn [map].
  + now rewrite <- app_assoc.
  + now rewrite app_nil_r.
Qed.

End BatchFacts.

Section PathFacts.
Import BatchSpec.

Lemma rsplit_none (c : ascii) (s : string) :
  free_of c s -> rsplit c s = None.
Proof.
unfold free_of. induction s as [|d r IH]; intros Hfree; [reflexivity|].
cbn [rsplit]. rewrite IH by (intros H; apply Hfree; now right).
destruct (Ascii.eqb d c) eqn:E; [|reflexivity].
apply Ascii.eqb_eq in E. subst d. exfalso. apply Hfree. now left.
Qed.

(** Splitting at the last occurrence undoes a concatenation. *)
Lemma rsplit_app (c : ascii) (a b : string) :
  free_of c b -> rsplit c (a ++ String c b) = Some (a, b).
Proof.
intros Hfree. induction a as [|d a IH].
- cbn [append rsplit]. now rewrite (rsplit_none c b Hfree), Ascii.eqb_refl.
- cbn [append rsplit]. now rewrite IH.
Qed.

Lemma free_of_app (c : ascii) (a b : string) :
  free_of c a -> free_of c b -> free_of c (a ++ b).
Proof.
unfold free_of. induction a as [|d a IH]; intros Ha Hb; [exact Hb|].
cbn [append chars list_ascii_of_string]. intros [-> | H].
- apply Ha. now left.
- revert H. apply IH; [|exact Hb]. intros H. apply Ha. now right.
Qed.

Lemma free_of_cons (c d : ascii) (s : string) :
  d <> c -> free_of c s -> free_of c (String d s).
Proof.
unfold free_of. intros Hd Hs [H | H]; [now apply Hd | now apply Hs].
Qed.

Lemma endswith_app (suffix a : string) : endswith suffix (a ++ suffix) = true.
Proof.
induction a as [|d a IH].
- destruct suffix; cbn [append endswith]; now rewrite String.eqb_refl.
- cbn [append endswith]. rewrite IH. apply orb_true_r.
Qed.

Lemma lower_app (a b : string) : lower (a ++ b) = (lower a ++ lower b)%string.
Proof. induction a as [|d a IH]; cbn [append lower]; congruence. Qed.

(** A name [stem.ext] splits into [stem] and [.ext]. *)
Lemma splitext_stem (stem ext : string) :
  free_of "/" stem -> free_of "/" ext -> free_of "." ext ->
  all_chars (fun c => Ascii.eqb c ".") stem = false ->
  splitext (stem ++ "." ++ ext) = (stem, "." ++ ext)%string.
Proof.
intros Hstem Hext Hdot Hname. unfold splitext.
rewrite rsplit_none.
- cbn [append]. change (String "." ext) with (String "."%char ext).
  now rewrite (rsplit_app "." stem ext Hdot), Hname.
- apply free_of_app; [exact Hstem|].
  apply free_of_cons; [discriminate | exact Hext].
Qed.

End PathFacts.

Section BatchProperties.
Import BatchSpec OutlineSpec.

(** X13.  When the output directory can be created and the input
    directory can be listed, [process_folder] returns normally and writes,
    in listing order, one file for every name that ends in [.pdf] (in any
    letter case) and whose output file can be opened, and nothing for any
    other name; the content written for a file is the result for that
    file alone, whatever happened to the files before it. *)
Theorem batch_writes_one_file_per_pdf (self : PDFOutlineExtractor) (os : OS)
    (json_dump : Outline -> string) (arrow : string)
    (input_folder output_folder : string) (m : Machine)
    (names : list string)
    (Hdirs : os_makedirs os output_folder = None)
    (Hlist : os_listdir os input_folder = inr names) :
  fst (process_folder self os json_dump arrow input_folder output_folder m)
  = None
  /\ written (snd (process_folder self os json_dump arrow input_folder
                     output_folder m))
     = (written m
        ++ map (fun f => (output_path_of output_folder f,
                          json_dump (outline_of self (os_files os)
                                       (path_join input_folder f))))
               (filter (writable os output_folder) (filter is_pdf names)))%list.
Proof.
unfold process_folder. rewrite Hdirs, Hlist.
destruct (filter is_pdf names) as [|f fs] eqn:Epdf.
- cbn [fst snd written filter map]. now rewrite app_nil_r.
- cbn [fst snd]. split; [reflexivity|].
  now rewrite process_files_written.
Qed.

Lemma batch_writes_one_file_per_pdf_witness :
  os_makedirs Scenario.batch_os "out" = None
  /\ os_listdir Scenario.batch_os ""
     = inr ["report.pdf"; "notes.txt"; "broken.pdf"; "overview.pdf"]
  /\ map fst (written (snd (process_folder default_extractor
                              Scenario.batch_os Scenario.dump_title "->" ""
                              "out"
                              Scenario.fresh)))
     = ["out/report.json"; "out/broken.json"].
Proof.
split; [reflexivity|]. split; [reflexivity|].
rewrite (proj2 (batch_writes_one_file_per_pdf default_extractor
                  Scenario.batch_os Scenario.dump_title "->" "" "out"
                  Scenario.fresh
                  ["report.pdf"; "notes.txt"; "broken.pdf"; "overview.pdf"]
                  eq_refl eq_refl)).
reflexivity.
Defined.

(** X15.  When no listed name ends in [.pdf], the call prints one line
    that names the input folder and does nothing else: no document is
    opened, no file written. *)
Theorem batch_without_pdf (self : PDFOutlineExtractor) (os : OS)
    (json_dump : Outline -> string) (arrow : string)
    (input_folder output_folder : string) (m : Machine)
    (names : list string)
    (Hdirs : os_makedirs os output_folder = None)
    (Hlist : os_listdir os input_folder = inr names)
    (Hnone : forall f, In f names -> is_pdf f = false) :
  process_folder self os json_dump arrow input_folder output_folder m
  = (None,
     {| world :=
          {| open_docs := open_docs (world m);
             printed := (printed (world m)
                         ++ [("No PDF files found in " ++ input_folder)%string])%list |};
        written := written m |}).
Proof.
unfold process_folder. rewrite Hdirs, Hlist.
now rewrite (filter_none is_pdf names Hnone).
Qed.

Lemma batch_without_pdf_witness :
  os_makedirs Scenario.text_only_os "out" = None
  /\ os_listdir Scenario.text_only_os "in" = inr ["notes.txt"; "pdf"]
  /\ (forall f, In f ["notes.txt"; "pdf"] -> is_pdf f = false)
  /\ process_folder default_extractor Scenario.text_only_os
       Scenario.dump_title "->" "in" "out" Scenario.fresh
     = (None,
        {| world := {| open_docs := [];
                       printed := ["No PDF files found in in"] |};
           written := [] |}).
Proof.
assert (H : forall f, In f ["notes.txt"; "pdf"] -> is_pdf f = false).
{ intros f [<- | [<- | []]]; reflexivity. }
split; [reflexivity|]. split; [reflexivity|]. split; [exact H|].
exact (batch_without_pdf default_extractor Scenario.text_only_os
         Scenario.dump_title "->" "in" "out" Scenario.fresh ["notes.txt"; "pdf"] eq_refl eq_refl H).
Defined.

(** X17.  For a file name [stem.ext] whose extension is [pdf] in any
    letter case (the stem holding a character other than a dot, and no
    slash in the name), the name is accepted and the output file is
    [stem.json] in the output folder; so two names that differ only in the
    letter case of the extension share one output file. *)
Theorem output_name_replaces_extension (output_folder stem ext : string)
    (Hstem : free_of "/" stem) (Hext : free_of "/" ext)
    (Hdot : free_of "." ext)
    (Hname : exists c, In c (chars stem) /\ c <> "."%char)
    (Hpdf : lower ext = "pdf") :
  is_pdf (stem ++ "." ++ ext) = true
  /\ output_path_of output_folder (stem ++ "." ++ ext)
     = path_join output_folder (stem ++ ".json")
  /\ output_path_of output_folder (stem ++ "." ++ ext)
     = output_path_of output_folder (stem ++ ".pdf").
Proof.
assert (Hbool : all_chars (fun c => Ascii.eqb c ".") stem = false).
{ apply not_true_iff_false. intros Hall.
  destruct Hname as (c & Hc & Hne). apply Hne.
  apply Ascii.eqb_eq. now apply (proj1 (all_chars_spec _ stem) Hall). }
assert (Hsplit : forall e, free_of "/" e -> free_of "." e ->
           output_path_of output_folder (stem ++ "." ++ e)
           = path_join output_folder (stem ++ ".json")).
{ intros e He Hd. unfold output_path_of, base_name_of.
  now rewrite (splitext_stem stem e Hstem He Hd Hbool). }
split; [|split].
- unfold is_pdf. rewrite lower_app. cbn [append lower]. rewrite Hpdf.
  change (String (lower_char ".") "pdf") with ".pdf".
  apply endswith_app.
- now apply Hsplit.
- rewrite (Hsplit ext Hext Hdot). symmetry. apply Hsplit.
  + unfold free_of. cbn. intros [H | [H | [H | []]]]; discriminate.
  + unfold free_of. cbn. intros [H | [H | [H | []]]]; discriminate.
Qed.

Lemma output_name_replaces_extension_witness :
  free_of "/" "Report" /\ free_of "/" "PDF" /\ free_of "." "PDF"
  /\ (exists c, In c (chars "Report") /\ c <> "."%char)
  /\ lower "PDF" = "pdf"
  /\ is_pdf "Report.PDF" = true
  /\ output_path_of "out" "Report.PDF" = path_join "out" "Report.json"
  /\ output_path_of "out" "Report.PDF" = output_path_of "out" "Report.pdf".
Proof.
assert (Hs : free_of "/" "Report").
{ unfold free_of. cbn. intuition discriminate. }
assert (He : free_of "/" "PDF").
{ unfold free_of. cbn. intuition discriminate. }
assert (Hd : free_of "." "PDF").
{ unfold free_of. cbn. intuition discriminate. }
assert (Hn : exists c, In c (chars "Report") /\ c <> "."%char).
{ exists "R"%char. split; [now left | discriminate]. }
split; [exact Hs|]. split; [exact He|]. split; [exact Hd|].
split; [exact Hn|]. split; [reflexivity|].
exact (output_name_replaces_extension "out" "Report" "PDF" Hs He Hd Hn
         eq_refl).
Defined.

End BatchProperties.

(** ** The pipeline end to end *)

Section PipelineFacts.
Import LevelSpec.

Lemma NoDup_map_filter {X Y : Type} (f : X -> Y) (P : X -> bool)
    (l : list X) :
  NoDup (map f l) -> NoDup (map f (filter P l)).
Proof.
induction l as [|x l IH]; intros Hnd; [constructor|].
cbn [map filter] in *. apply NoDup_cons_iff in Hnd. destruct Hnd as [Hx Hl].
destruct (P x); [|now apply IH].
cbn [map]. constructor; [|now apply IH].
rewrite in_map_iff in *. intros (y & Hy & Hin). apply Hx.
exists y. apply filter_In in Hin. tauto.
Qed.

(** The leveled headings are in page order, then level order. *)
Lemma headings_sorted (font_info : list FontInfo) :
  StronglySorted heading_order (snd (determine_heading_levels font_info)).
Proof.
rewrite determine_heading_levels_eq. cbn [snd].
set (stl := size_to_level font_info).
set (cands := filter (has_level stl) (processing_order font_info)).
assert (Hsub : subsequence (first_occurrences candidate_key cands) cands)
  by apply first_occurrences_subsequence.
apply (StronglySorted_map_in page_size_order).
- intros a b Ha Hb. apply heading_order_of.
  + apply (subsequence_In _ _ _ Hsub) in Ha. now apply filter_In in Ha.
  + apply (subsequence_In _ _ _ Hsub) in Hb. now apply filter_In in Hb.
- apply (subsequence_sorted _ _ _ Hsub).
  apply (subsequence_sorted _ _ _ (subsequence_filter _ _)).
  apply processing_order_sorted.
Qed.

(** The leveled headings have pairwise distinct keys. *)
Lemma headings_distinct (font_info : list FontInfo) :
  NoDup (map heading_key (snd (determine_heading_levels font_info))).
Proof.
rewrite determine_heading_levels_eq. cbn [snd]. rewrite map_map.
rewrite (map_ext _ candidate_key) by (intros x; apply heading_key_of).
apply first_occurrences_NoDup.
Qed.

Lemma headings_length (font_info : list FontInfo) :
  List.length (snd (determine_heading_levels font_info))
  <= List.length font_info.
Proof.
rewrite determine_heading_levels_eq. cbn [snd]. rewrite length_map.
rewrite <- (Permutation_length (processing_order_perm font_info)).
generalize (processing_order font_info). intros l.
assert (Hsub : forall (a b : list FontInfo),
           subsequence a b -> List.length a <= List.length b).
{ induction 1; simpl; lia. }
apply Hsub. eapply subsequence_trans;
  [apply first_occurrences_subsequence | apply subsequence_filter].
Qed.

End PipelineFacts.

Section PipelineProperties.
Import LevelSpec FontInfoSpec.

(** X18.  Whatever the file, the returned outline is in page order and,
    within a page, from the senior level to the junior; the lowercased
    trimmed texts of its entries are pairwise distinct; and it has no more
    entries than the pages that could be read have layout blocks. *)
Theorem outline_sorted_and_distinct (self : PDFOutlineExtractor)
    (fs : FileSystem) (pdf_path : string) (w : World) :
  StronglySorted heading_order
                 (outline (fst (extract_outline self fs pdf_path w)))
  /\ NoDup (map heading_key
                (outline (fst (extract_outline self fs pdf_path w))))
  /\ forall doc,
       fs pdf_path = inr doc ->
       List.length (outline (fst (extract_outline self fs pdf_path w)))
       <= layout_blocks (doc_pages doc).
Proof.
destruct (fs pdf_path) as [e | doc] eqn:Hfs.
- rewrite (extract_outline_open_error self fs pdf_path w e Hfs).
  cbn [on_error fst empty_outline outline map].
  split; [constructor|]. split; [constructor|]. intros doc Hdoc. discriminate.
- destruct (extract_font_info self doc) as [e | font_info] eqn:Hfi.
  + rewrite (extract_outline_read_error self fs pdf_path w doc e Hfs Hfi).
    cbn [on_error fst empty_outline outline map List.length].
    split; [constructor|]. split; [constructor|]. intros; lia.
  + rewrite (extract_outline_success self fs pdf_path w doc font_info Hfs Hfi).
    cbn [fst outline]. split; [|split].
    * apply (subsequence_sorted _ _ _ (subsequence_filter _ _)).
      apply headings_sorted.
    * apply NoDup_map_filter, headings_distinct.
    * intros doc' Hdoc. injection Hdoc as <-.
      destruct (info_pages_spec self _ _ _ _ Hfi) as (new & Hnew & _ & _ & Hlen).
      cbn [app] in Hnew. subst new.
      eapply Nat.le_trans; [|exact Hlen].
      eapply Nat.le_trans; [|apply headings_length].
      generalize (snd (determine_heading_levels font_info)). intros hs.
      induction hs as [|h hs IH]; cbn [filter]; [lia|].
      destruct (negb _); simpl; lia.
Qed.

End PipelineProperties.
